(** * GitHubTelegramSyncBot: the webhook pipeline

    A shallow embedding of [webhook_handler.py] (signature verification,
    event dispatch, the six notification formatters, the endpoint) and of
    [utils.escape_markdown], together with the properties of the
    specification that are stated about them.

    Python values are modelled as follows.
    - [str] is a sequence of Unicode code points ([list N]); literals of the
      source are written [u "..."], the UTF-8 decoding of the literal.
    - [bytes] is [list byte].
    - A raising computation returns [Raise e]; [try/except Exception] is
      [try_except].
    - Logging, JSON decoding and the notification hand-off are recorded in a
      trace of [event]s. *)

From Stdlib Require Import ZArith NArith List String Ascii Bool Lia DecimalString.
From Stdlib Require Import Strings.Byte.
Import ListNotations.

Set Implicit Arguments.
Set Warnings "-register-all".

(** ** Python strings and bytes *)

Definition char := N.
Definition str := list char.
Definition bytes := list byte.

Definition char_eqb : char -> char -> bool := N.eqb.

Fixpoint str_eqb (a b : str) : bool :=
  match a, b with
  | [], [] => true
  | x :: a', y :: b' => char_eqb x y && str_eqb a' b'
  | _, _ => false
  end.

(** Exceptions the modelled code can meet. *)
Inductive exn :=
| AttributeError
| TypeError
| UnicodeEncodeError
| UnicodeDecodeError
| JSONDecodeError
| OtherError.

Inductive result (A : Type) :=
| Ok (a : A)
| Raise (e : exn).
Arguments Ok {A} a.
Arguments Raise {A} e.

Definition rbind {A B} (m : result A) (k : A -> result B) : result B :=
  match m with
  | Ok a => k a
  | Raise e => Raise e
  end.

Declare Scope py_scope.
Delimit Scope py_scope with py.
Notation "'let?' x ':=' m 'in' k" := (rbind m (fun x => k))
  (at level 10, x name, m at level 100, k at level 200) : py_scope.
Local Open Scope py_scope.

Definition byte_of_N (n : N) : byte :=
  match Byte.of_N n with
  | Some b => b
  | None => x00
  end.

(** *** UTF-8, strict (the codec's default error handler) *)

Definition is_cont (b : N) : bool := ((0x80 <=? b) && (b <=? 0xBF))%N.

Definition is_surrogate (c : N) : bool := ((0xD800 <=? c) && (c <=? 0xDFFF))%N.

Definition accept (lo cp : N) (rest : result str) : result str :=
  if ((lo <=? cp) && (cp <=? 0x10FFFF) && negb (is_surrogate cp))%N
  then (let? s := rest in Ok (cp :: s))
  else Raise UnicodeDecodeError.

Fixpoint decode_points (bs : list N) : result str :=
  match bs with
  | [] => Ok []
  | b :: t =>
    if (b <? 0x80)%N then accept 0 b (decode_points t)
    else if (b <? 0xC0)%N then Raise UnicodeDecodeError
    else if (b <? 0xE0)%N then
      match t with
      | c1 :: t1 =>
        if is_cont c1
        then accept 0x80 ((b - 0xC0) * 64 + (c1 - 0x80))%N (decode_points t1)
        else Raise UnicodeDecodeError
      | _ => Raise UnicodeDecodeError
      end
    else if (b <? 0xF0)%N then
      match t with
      | c1 :: c2 :: t2 =>
        if is_cont c1 && is_cont c2
        then accept 0x800
               (((b - 0xE0) * 64 + (c1 - 0x80)) * 64 + (c2 - 0x80))%N
               (decode_points t2)
        else Raise UnicodeDecodeError
      | _ => Raise UnicodeDecodeError
      end
    else if (b <? 0xF8)%N then
      match t with
      | c1 :: c2 :: c3 :: t3 =>
        if is_cont c1 && is_cont c2 && is_cont c3
        then accept 0x10000
               ((((b - 0xF0) * 64 + (c1 - 0x80)) * 64 + (c2 - 0x80)) * 64
                + (c3 - 0x80))%N
               (decode_points t3)
        else Raise UnicodeDecodeError
      | _ => Raise UnicodeDecodeError
      end
    else Raise UnicodeDecodeError
  end.

(** [payload.decode('utf-8')] *)
Definition bytes_decode (b : bytes) : result str :=
  decode_points (map Byte.to_N b).

Definition encode_point (c : char) : result (list N) :=
  if (c <? 0x80)%N then Ok [c]
  else if (c <? 0x800)%N then Ok [0xC0 + c / 64; 0x80 + c mod 64]%N
  else if (c <? 0x10000)%N then
    if is_surrogate c then Raise UnicodeEncodeError
    else Ok [0xE0 + c / 4096; 0x80 + (c / 64) mod 64; 0x80 + c mod 64]%N
  else if (c <=? 0x10FFFF)%N then
    Ok [0xF0 + c / 262144; 0x80 + (c / 4096) mod 64;
        0x80 + (c / 64) mod 64; 0x80 + c mod 64]%N
  else Raise UnicodeEncodeError.

(** [s.encode('utf-8')] *)
Fixpoint str_encode (s : str) : result bytes :=
  match s with
  | [] => Ok []
  | c :: s' =>
    let? bs := encode_point c in
    let? rest := str_encode s' in
    Ok (map byte_of_N bs ++ rest)
  end.

(** A literal of the source: the code points of a UTF-8 Rocq string. *)
Definition u (s : string) : str :=
  match bytes_decode (list_byte_of_string s) with
  | Ok t => t
  | Raise _ => []
  end.

(** ** SHA-256 and HMAC (hashlib.sha256, hmac.new) *)

Module Sha256.
Local Open Scope Z_scope.

Definition wrap (x : Z) : Z := x mod 2 ^ 32.
Definition add32 (x y : Z) : Z := wrap (x + y).
Definition rotr (n x : Z) : Z :=
  Z.lor (Z.shiftr x n) (wrap (Z.shiftl x (32 - n))).
Definition not32 (x : Z) : Z := Z.lxor x (2 ^ 32 - 1).

Definition Ch (x y z : Z) := Z.lxor (Z.land x y) (Z.land (not32 x) z).
Definition Maj (x y z : Z) :=
  Z.lxor (Z.lxor (Z.land x y) (Z.land x z)) (Z.land y z).
Definition big0 (x : Z) := Z.lxor (Z.lxor (rotr 2 x) (rotr 13 x)) (rotr 22 x).
Definition big1 (x : Z) := Z.lxor (Z.lxor (rotr 6 x) (rotr 11 x)) (rotr 25 x).
Definition small0 (x : Z) :=
  Z.lxor (Z.lxor (rotr 7 x) (rotr 18 x)) (Z.shiftr x 3).
Definition small1 (x : Z) :=
  Z.lxor (Z.lxor (rotr 17 x) (rotr 19 x)) (Z.shiftr x 10).

(** The round constants are the leading 32 fractional bits of the cube roots
    of the first 64 primes, the initial state those of the square roots of
    the first 8; they are computed here rather than tabulated. *)
Fixpoint has_divisor (n : Z) (ds : list Z) : bool :=
  match ds with
  | [] => false
  | d :: ds' => (n mod d =? 0) || has_divisor n ds'
  end.

Fixpoint primes_from (fuel : nat) (n : Z) (found : list Z) : list Z :=
  match fuel with
  | O => rev found
  | S fuel' =>
    if has_divisor n found then primes_from fuel' (n + 1) found
    else primes_from fuel' (n + 1) (n :: found)
  end.

Definition primes64 : list Z := Eval vm_compute in primes_from 310 2 [].

Fixpoint cube_root_bits (bits : nat) (n r : Z) : Z :=
  match bits with
  | O => r
  | S b =>
    let r' := r + 2 ^ Z.of_nat b in
    cube_root_bits b n (if r' * r' * r' <=? n then r' else r)
  end.

Definition K : list Z :=
  Eval vm_compute in
    map (fun p => wrap (cube_root_bits 36 (p * 2 ^ 96) 0)) primes64.

Definition H0 : list Z :=
  Eval vm_compute in
    map (fun p => wrap (Z.sqrt (p * 2 ^ 64))) (firstn 8 primes64).

(** Padding: 0x80, zeros up to 56 mod 64, then the bit length on 8 bytes. *)
Definition be_bytes (n : nat) (x : Z) : list Z :=
  map (fun i => Z.shiftr x (8 * Z.of_nat i) mod 256) (rev (seq 0 n)).

Definition pad (msg : list Z) : list Z :=
  let len := Z.of_nat (List.length msg) in
  let zeros := Z.to_nat ((55 - len) mod 64) in
  msg ++ [128] ++ repeat 0 zeros ++ be_bytes 8 (8 * len).

Fixpoint be_words (bs : list Z) : list Z :=
  match bs with
  | a :: b :: c :: d :: rest =>
    (((a * 256 + b) * 256 + c) * 256 + d) :: be_words rest
  | _ => []
  end.

(** The message schedule, kept as a sliding window of sixteen words. *)
Fixpoint schedule (n : nat) (window : list Z) : list Z :=
  match n with
  | O => []
  | S n' =>
    let x := nth 0 window 0 in
    let next :=
      add32 (add32 (small1 (nth 14 window 0)) (nth 9 window 0))
            (add32 (small0 (nth 1 window 0)) x) in
    x :: schedule n' (tl window ++ [next])
  end.

Definition state := list Z.

Definition round (s : state) (kw : Z * Z) : state :=
  match s with
  | [a; b; c; d; e; f; g; h] =>
    let t1 := add32 (add32 (add32 h (big1 e)) (add32 (Ch e f g) (fst kw)))
                    (snd kw) in
    let t2 := add32 (big0 a) (Maj a b c) in
    [add32 t1 t2; a; b; c; add32 d t1; e; f; g]
  | _ => s
  end.

Definition compress (s : state) (block : list Z) : state :=
  let s' := fold_left round (combine K (schedule 64 block)) s in
  map (fun p => add32 (fst p) (snd p)) (combine s s').

Fixpoint blocks (n : nat) (ws : list Z) : list (list Z) :=
  match n with
  | O => []
  | S n' => firstn 16 ws :: blocks n' (skipn 16 ws)
  end.

Definition digest_Z (msg : list Z) : list Z :=
  let ws := be_words (pad msg) in
  let s := fold_left compress (blocks (List.length ws / 16) ws) H0 in
  flat_map (be_bytes 4) s.

Definition digest (msg : bytes) : bytes :=
  map (fun z => byte_of_N (Z.to_N z))
      (digest_Z (map (fun b => Z.of_N (Byte.to_N b)) msg)).

End Sha256.

Definition xor_byte (k : N) (b : byte) : byte :=
  byte_of_N (N.lxor k (Byte.to_N b)).

(** [hmac.new(key, msg, hashlib.sha256).digest()] *)
Definition hmac_sha256 (key msg : bytes) : bytes :=
  let key1 := if Nat.ltb 64 (List.length key) then Sha256.digest key else key in
  let key2 := key1 ++ repeat x00 (64 - List.length key1) in
  Sha256.digest (map (xor_byte 0x5c) key2
                 ++ Sha256.digest (map (xor_byte 0x36) key2 ++ msg)).

Definition hex_digit (n : N) : char :=
  if (n <? 10)%N then (48 + n)%N else (87 + n)%N.

Definition hex_of_byte (b : byte) : str :=
  let n := Byte.to_N b in [hex_digit (n / 16); hex_digit (n mod 16)]%N.

(** [.hexdigest()]: two lowercase hexadecimal digits per byte. *)
Definition hexdigest (digest : bytes) : str := flat_map hex_of_byte digest.

Definition ascii_bytes (s : string) : bytes := list_byte_of_string s.

(** ** String methods used by the handlers *)

Definition nl : str := [10%N].

Definition str_truthy (s : str) : bool :=
  match s with
  | [] => false
  | _ :: _ => true
  end.

(** [s.startswith(p)] *)
Fixpoint startswith (p s : str) : bool :=
  match p, s with
  | [], _ => true
  | x :: p', y :: s' => char_eqb x y && startswith p' s'
  | _ :: _, [] => false
  end.

(** [s.replace(old, new)] for a non-empty [old]: the occurrences are found
    from the left and do not overlap; [skip] counts the characters of the
    occurrence being replaced that are still to be dropped. *)
Fixpoint replace_from (skip : nat) (old new s : str) : str :=
  match s with
  | [] => []
  | c :: s' =>
    match skip with
    | S k => replace_from k old new s'
    | O =>
      if startswith old s
      then new ++ replace_from (List.length old - 1) old new s'
      else c :: replace_from 0 old new s'
    end
  end.

(** With an empty [old], Python puts [new] before every character and at the
    end. *)
Definition str_replace (old new s : str) : str :=
  match old with
  | [] => flat_map (fun c => new ++ [c]) s ++ new
  | _ :: _ => replace_from 0 old new s
  end.

Definition is_upper (c : char) : bool := ((65 <=? c) && (c <=? 90))%N.
Definition is_lower (c : char) : bool := ((97 <=? c) && (c <=? 122))%N.
Definition to_upper (c : char) : char := if is_lower c then (c - 32)%N else c.
Definition to_lower (c : char) : char := if is_upper c then (c + 32)%N else c.

(** [s.title()] on ASCII letters; the handlers call it only on an action
    that has been found equal to one of their ASCII literals. *)
Fixpoint title_from (prev_cased : bool) (s : str) : str :=
  match s with
  | [] => []
  | c :: s' =>
    (if prev_cased then to_lower c else to_upper c)
      :: title_from (is_upper c || is_lower c) s'
  end.

Definition str_title (s : str) : str := title_from false s.

Definition is_ascii (s : str) : bool := forallb (fun c => (c <? 128)%N) s.

(** [hmac.compare_digest(a, b)] on two [str]: a [TypeError] unless both are
    ASCII; the answer is equality (computed in constant time, which the
    model does not represent). *)
Definition compare_digest (a b : str) : result bool :=
  if is_ascii a && is_ascii b then Ok (str_eqb a b) else Raise TypeError.

(** [str(n)] for an [int]. *)
Definition dec (z : Z) : str :=
  map (fun b => Byte.to_N b)
      (list_byte_of_string (NilZero.string_of_int (Z.to_int z))).

(** ** utils.py *)

Definition escape_chars : str := u "_*[]()~`>#+-=|{}.!".

Definition char_in (c : char) (s : str) : bool := existsb (char_eqb c) s.

Definition backslash : char := 92%N.

Fixpoint escape_loop (text escaped : str) : str :=
  match text with
  | [] => escaped
  | c :: text' =>
    escape_loop text'
      (if char_in c escape_chars
       then escaped ++ [backslash; c]
       else escaped ++ [c])
  end.

Definition escape_markdown (text : str) : str :=
  if negb (str_truthy text) then [] else escape_loop text [].

(** ** JSON values, as [json.loads] builds them

    A [float] is observed by the handlers only through [bool()] and
    [str()], and carries both. A [dict] is an association list read by its
    first match. *)
Inductive json :=
| JNull
| JBool (b : bool)
| JInt (z : Z)
| JFloat (nonzero : bool) (repr : str)
| JStr (s : str)
| JList (items : list json)
| JDict (fields : list (str * json)).

Fixpoint assoc {A} (k : str) (d : list (str * A)) : option A :=
  match d with
  | [] => None
  | (k', v) :: d' => if str_eqb k k' then Some v else assoc k d'
  end.

Definition get_or (d : list (str * json)) (k : str) (default : json) : json :=
  match assoc k d with
  | Some x => x
  | None => default
  end.

(** [v.get(k, default)]: only a [dict] has the method. *)
Definition dict_get (v : json) (k : str) (default : json) : result json :=
  match v with
  | JDict d => Ok (get_or d k default)
  | _ => Raise AttributeError
  end.

(** [bool(v)] *)
Definition truthy (v : json) : bool :=
  match v with
  | JNull => false
  | JBool b => b
  | JInt z => negb (z =? 0)%Z
  | JFloat nonzero _ => nonzero
  | JStr s => str_truthy s
  | JList [] => false
  | JList (_ :: _) => true
  | JDict [] => false
  | JDict (_ :: _) => true
  end.

(** [len(v)] *)
Definition py_len (v : json) : result Z :=
  match v with
  | JStr s => Ok (Z.of_nat (List.length s))
  | JList l => Ok (Z.of_nat (List.length l))
  | JDict d => Ok (Z.of_nat (List.length d))
  | _ => Raise TypeError
  end.

(** [v[:n]]: a [str] or a [list] is sliced; a [dict] rejects the slice as a
    key and the other values are not subscriptable. *)
Definition slice_to (n : nat) (v : json) : result json :=
  match v with
  | JStr s => Ok (JStr (firstn n s))
  | JList l => Ok (JList (firstn n l))
  | _ => Raise TypeError
  end.

(** The values a [for] loop draws from [v]. *)
Definition py_iter (v : json) : result (list json) :=
  match v with
  | JList l => Ok l
  | JStr s => Ok (map (fun c => JStr [c]) s)
  | JDict d => Ok (map (fun kv => JStr (fst kv)) d)
  | _ => Raise TypeError
  end.

(** [v in l] for a list [l] of [str] literals: only an equal [str] is in. *)
Definition py_in (v : json) (l : list str) : bool :=
  match v with
  | JStr s => existsb (str_eqb s) l
  | _ => false
  end.

(** [v != s] for a [str] literal [s]. *)
Definition py_ne (v : json) (s : str) : bool :=
  match v with
  | JStr t => negb (str_eqb t s)
  | _ => true
  end.

(** ** Effects: the trace of a request *)

Inductive level := Info | Warning | Error.

(** [Log]: a call of the logger, with the fixed part of its text and, for
    a message that ends with [{e}], the exception it reports. [Loads]: the
    decoding of the payload is entered. [Notify]: [_send_notification] is
    entered. *)
Inductive event :=
| Log (lvl : level) (text : str) (cause : option exn)
| Loads (payload : bytes)
| Notify (message : str).

(** A computation leaves a trace and returns or raises. *)
Definition io (A : Type) : Type := list event * result A.

Definition ret {A} (a : A) : io A := ([], Ok a).

Definition bind {A B} (m : io A) (k : A -> io B) : io B :=
  match m with
  | (t, Ok a) => let (t', r) := k a in (t ++ t', r)
  | (t, Raise e) => (t, Raise e)
  end.

Definition emit (e : event) : io unit := ([e], Ok tt).

Definition lift {A} (r : result A) : io A := ([], r).

(** [try: m except Exception as e: h e] *)
Definition try_except {A} (m : io A) (h : exn -> io A) : io A :=
  match m with
  | (t, Ok a) => (t, Ok a)
  | (t, Raise e) => let (t', r) := h e in (t ++ t', r)
  end.

(** [try: m except json.JSONDecodeError: h]: the other exceptions pass. *)
Definition try_except_json {A} (m : io A) (h : io A) : io A :=
  match m with
  | (t, Raise JSONDecodeError) => let (t', r) := h in (t ++ t', r)
  | _ => m
  end.

Notation "x <- m ;; k" := (bind m (fun x => k))
  (at level 61, m at next level, right associativity) : py_scope.
Notation "m ;;; k" := (bind m (fun _ => k))
  (at level 61, right associativity) : py_scope.

Definition trace {A} (m : io A) : list event := fst m.
Definition outcome {A} (m : io A) : result A := snd m.

(** ** config.py: the settings the handler reads *)

Record Config := {
  webhook_secret : str;
  bot_admin_id : str
}.

(** ** webhook_handler.py *)

(** The Flask request: the body and the two headers the handler reads, each
    absent or present. *)
Record Request := {
  get_data : bytes;
  x_hub_signature_256 : option str;
  x_github_event : option str
}.

(** [headers.get(name, '')] *)
Definition header_or_empty (h : option str) : str :=
  match h with
  | Some v => v
  | None => []
  end.

Record Response := {
  body : json;
  status : Z
}.

(** [jsonify({key: text}), code] *)
Definition jsonify (key text : string) (code : Z) : Response :=
  {| body := JDict [(u key, JStr (u text))]; status := code |}.

Section WebhookHandler.

(** [json.loads] and the [str()] of a [list] or [dict] belong to the Python
    runtime; the handler is modelled for any behaviour of both. *)
Variable json_loads : str -> result json.
Variable str_container : json -> str.

Variable config : Config.

(** [str(v)], which is what an f-string field [{v}] inserts. *)
Definition py_str (v : json) : str :=
  match v with
  | JNull => u "None"
  | JBool true => u "True"
  | JBool false => u "False"
  | JInt z => dec z
  | JFloat _ repr => repr
  | JStr s => s
  | JList _ | JDict _ => str_container v
  end.

Definition _verify_signature (payload : bytes) (signature : str) : io bool :=
  if negb (str_truthy (webhook_secret config)) then
    emit (Log Warning
      (u "No webhook secret configured, skipping signature verification")
      None) ;;;
    ret true
  else if negb (str_truthy signature) then
    emit (Log Error (u "No signature provided in webhook request") None) ;;;
    ret false
  else
    key <- lift (str_encode (webhook_secret config)) ;;
    let expected_signature := hexdigest (hmac_sha256 key payload) in
    let signature_header := str_replace (u "sha256=") [] signature in
    lift (compare_digest expected_signature signature_header).

(** One turn of the loop over [commits[:3]]. *)
Definition commit_entry (commit : json) : result str :=
  let? commit_message :=
    dict_get commit (u "message") (JStr (u "No message")) in
  let? author := dict_get commit (u "author") (JDict []) in
  let? author_name := dict_get author (u "name") (JStr (u "Unknown")) in
  let? id := dict_get commit (u "id") (JStr []) in
  let? commit_id := slice_to 7 id in
  Ok (u "🔸 **" ++ py_str commit_message ++ u "**" ++ nl
      ++ u "👤 " ++ py_str author_name ++ u " • `" ++ py_str commit_id
      ++ u "`" ++ nl ++ nl).

Fixpoint for_commits (commits : list json) (message : str) : result str :=
  match commits with
  | [] => Ok message
  | commit :: rest =>
    let? entry := commit_entry commit in
    for_commits rest (message ++ entry)
  end.

(** [ref.replace('refs/heads/', '') if ref.startswith('refs/heads/') else ref] *)
Definition branch_of (ref : json) : result str :=
  match ref with
  | JStr r =>
    Ok (if startswith (u "refs/heads/") r
        then str_replace (u "refs/heads/") [] r
        else r)
  | _ => Raise AttributeError
  end.

(** The body of the [try] of [_process_push_event]. *)
Definition push_body (data : json) : result str :=
  let? repository := dict_get data (u "repository") (JDict []) in
  let? pusher := dict_get data (u "pusher") (JDict []) in
  let? commits := dict_get data (u "commits") (JList []) in
  let? ref := dict_get data (u "ref") (JStr []) in
  let? repo_name := dict_get repository (u "full_name") (JStr (u "Unknown")) in
  let? pusher_name := dict_get pusher (u "name") (JStr (u "Unknown")) in
  let? branch := branch_of ref in
  if negb (truthy commits) then Ok [] else
  let? commit_count := py_len commits in
  let commit_word :=
    if (commit_count =? 1)%Z then u "commit" else u "commits" in
  let message :=
    u "📝 **New " ++ commit_word ++ u " to " ++ py_str repo_name ++ u "**"
    ++ nl ++ nl
    ++ u "🌿 Branch: `" ++ branch ++ u "`" ++ nl
    ++ u "👤 Pusher: " ++ py_str pusher_name ++ nl
    ++ u "📊 " ++ dec commit_count ++ u " " ++ commit_word ++ nl ++ nl in
  let? shown := slice_to 3 commits in
  let? items := py_iter shown in
  let? message := for_commits items message in
  let? total := py_len commits in
  let message :=
    if (3 <? total)%Z
    then message ++ u "... and " ++ dec (total - 3) ++ u " more commits"
         ++ nl ++ nl
    else message in
  let? repo_url := dict_get repository (u "html_url") (JStr []) in
  Ok (message ++ u "🔗 [View Repository](" ++ py_str repo_url ++ u ")").

(** [action.title()] *)
Definition title_of (action : json) : result str :=
  match action with
  | JStr a => Ok (str_title a)
  | _ => Raise AttributeError
  end.

(** [{...}.get(action, default)] on a dict with [str] keys: a [list] or a
    [dict] cannot be hashed. *)
Definition emoji_get (table : list (str * str)) (action : json)
    (default : str) : result str :=
  match action with
  | JStr a =>
    Ok (match assoc a table with
        | Some e => e
        | None => default
        end)
  | JList _ | JDict _ => Raise TypeError
  | _ => Ok default
  end.

Definition pull_request_body (data : json) : result str :=
  let? action := dict_get data (u "action") (JStr []) in
  let? pull_request := dict_get data (u "pull_request") (JDict []) in
  let? repository := dict_get data (u "repository") (JDict []) in
  if negb (py_in action [u "opened"; u "closed"; u "merged"]) then Ok [] else
  let? repo_name := dict_get repository (u "full_name") (JStr (u "Unknown")) in
  let? pr_title := dict_get pull_request (u "title") (JStr (u "No title")) in
  let? pr_number := dict_get pull_request (u "number") (JInt 0) in
  let? user := dict_get pull_request (u "user") (JDict []) in
  let? pr_user := dict_get user (u "login") (JStr (u "Unknown")) in
  let? pr_url := dict_get pull_request (u "html_url") (JStr []) in
  let? action_emoji :=
    emoji_get [(u "opened", u "🟢"); (u "closed", u "🔴"); (u "merged", u "🟣")]
              action (u "📋") in
  let? titled := title_of action in
  Ok (action_emoji ++ u " **Pull Request " ++ titled ++ u "**" ++ nl ++ nl
      ++ u "📦 Repository: " ++ py_str repo_name ++ nl
      ++ u "🔧 PR #" ++ py_str pr_number ++ u ": " ++ py_str pr_title ++ nl
      ++ u "👤 Author: " ++ py_str pr_user ++ nl ++ nl
      ++ u "🔗 [View Pull Request](" ++ py_str pr_url ++ u ")").

Definition issues_body (data : json) : result str :=
  let? action := dict_get data (u "action") (JStr []) in
  let? issue := dict_get data (u "issue") (JDict []) in
  let? repository := dict_get data (u "repository") (JDict []) in
  if negb (py_in action [u "opened"; u "closed"; u "reopened"]) then Ok []
  else
  let? repo_name := dict_get repository (u "full_name") (JStr (u "Unknown")) in
  let? issue_title := dict_get issue (u "title") (JStr (u "No title")) in
  let? issue_number := dict_get issue (u "number") (JInt 0) in
  let? user := dict_get issue (u "user") (JDict []) in
  let? issue_user := dict_get user (u "login") (JStr (u "Unknown")) in
  let? issue_url := dict_get issue (u "html_url") (JStr []) in
  let? action_emoji :=
    emoji_get
      [(u "opened", u "🟢"); (u "closed", u "🔴"); (u "reopened", u "🟡")]
      action (u "🐛") in
  let? titled := title_of action in
  Ok (action_emoji ++ u " **Issue " ++ titled ++ u "**" ++ nl ++ nl
      ++ u "📦 Repository: " ++ py_str repo_name ++ nl
      ++ u "🐛 Issue #" ++ py_str issue_number ++ u ": " ++ py_str issue_title
      ++ nl
      ++ u "👤 Author: " ++ py_str issue_user ++ nl ++ nl
      ++ u "🔗 [View Issue](" ++ py_str issue_url ++ u ")").

Definition star_body (data : json) : result str :=
  let? action := dict_get data (u "action") (JStr []) in
  let? repository := dict_get data (u "repository") (JDict []) in
  let? sender := dict_get data (u "sender") (JDict []) in
  if py_ne action (u "created") then Ok [] else
  let? repo_name := dict_get repository (u "full_name") (JStr (u "Unknown")) in
  let? star_count := dict_get repository (u "stargazers_count") (JInt 0) in
  let? user_name := dict_get sender (u "login") (JStr (u "Unknown")) in
  let? repo_url := dict_get repository (u "html_url") (JStr []) in
  Ok (u "⭐ **New Star!**" ++ nl ++ nl
      ++ u "📦 Repository: " ++ py_str repo_name ++ nl
      ++ u "👤 Starred by: " ++ py_str user_name ++ nl
      ++ u "📊 Total stars: " ++ py_str star_count ++ nl ++ nl
      ++ u "🔗 [View Repository](" ++ py_str repo_url ++ u ")").

Definition fork_body (data : json) : result str :=
  let? repository := dict_get data (u "repository") (JDict []) in
  let? forkee := dict_get data (u "forkee") (JDict []) in
  let? sender := dict_get data (u "sender") (JDict []) in
  let? repo_name := dict_get repository (u "full_name") (JStr (u "Unknown")) in
  let? fork_count := dict_get repository (u "forks_count") (JInt 0) in
  let? user_name := dict_get sender (u "login") (JStr (u "Unknown")) in
  let? fork_url := dict_get forkee (u "html_url") (JStr []) in
  Ok (u "🍴 **New Fork!**" ++ nl ++ nl
      ++ u "📦 Repository: " ++ py_str repo_name ++ nl
      ++ u "👤 Forked by: " ++ py_str user_name ++ nl
      ++ u "📊 Total forks: " ++ py_str fork_count ++ nl ++ nl
      ++ u "🔗 [View Fork](" ++ py_str fork_url ++ u ")").

Definition release_body (data : json) : result str :=
  let? action := dict_get data (u "action") (JStr []) in
  let? release := dict_get data (u "release") (JDict []) in
  let? repository := dict_get data (u "repository") (JDict []) in
  if py_ne action (u "published") then Ok [] else
  let? repo_name := dict_get repository (u "full_name") (JStr (u "Unknown")) in
  let? tag_or_unknown := dict_get release (u "tag_name") (JStr (u "Unknown")) in
  let? release_name := dict_get release (u "name") tag_or_unknown in
  let? release_tag := dict_get release (u "tag_name") (JStr (u "Unknown")) in
  let? release_url := dict_get release (u "html_url") (JStr []) in
  let? author := dict_get release (u "author") (JDict []) in
  let? author_name := dict_get author (u "login") (JStr (u "Unknown")) in
  Ok (u "🚀 **New Release!**" ++ nl ++ nl
      ++ u "📦 Repository: " ++ py_str repo_name ++ nl
      ++ u "🏷️ Release: " ++ py_str release_name ++ u " ("
      ++ py_str release_tag ++ u ")" ++ nl
      ++ u "👤 Author: " ++ py_str author_name ++ nl ++ nl
      ++ u "🔗 [View Release](" ++ py_str release_url ++ u ")").

(** Each [_process_*_event] wraps its body: an exception is logged and the
    message is empty. *)
Definition guarded (what : string) (body : result str) : io str :=
  try_except (lift body)
    (fun e => emit (Log Error (u what) (Some e)) ;;; ret []).

Definition _process_push_event (data : json) : io str :=
  guarded "Error processing push event" (push_body data).
Definition _process_pull_request_event (data : json) : io str :=
  guarded "Error processing pull request event" (pull_request_body data).
Definition _process_issues_event (data : json) : io str :=
  guarded "Error processing issues event" (issues_body data).
Definition _process_star_event (data : json) : io str :=
  guarded "Error processing star event" (star_body data).
Definition _process_fork_event (data : json) : io str :=
  guarded "Error processing fork event" (fork_body data).
Definition _process_release_event (data : json) : io str :=
  guarded "Error processing release event" (release_body data).

(** The [try] of [_process_event]: the dispatch on the event type. *)
Definition dispatch (event_type : str) (data : json) : io str :=
  if str_eqb event_type (u "push") then _process_push_event data
  else if str_eqb event_type (u "pull_request")
  then _process_pull_request_event data
  else if str_eqb event_type (u "issues") then _process_issues_event data
  else if str_eqb event_type (u "star") then _process_star_event data
  else if str_eqb event_type (u "fork") then _process_fork_event data
  else if str_eqb event_type (u "release") then _process_release_event data
  else
    emit (Log Info (u "Unhandled event type: " ++ event_type) None) ;;;
    ret [].

Definition _process_event (event_type : str) (data : json) : io str :=
  try_except (dispatch event_type data)
    (fun e =>
       emit (Log Error (u "Error processing " ++ event_type ++ u " event")
                 (Some e)) ;;;
       ret []).

Definition _send_notification (message : str) : io unit :=
  try_except
    (emit (Notify message) ;;;
     emit (Log Info (u "Webhook notification: " ++ message) None))
    (fun e => emit (Log Error (u "Error sending notification") (Some e))).

Definition handle_webhook (request : Request) : io Response :=
  try_except
    (let payload := get_data request in
     let signature := header_or_empty (x_hub_signature_256 request) in
     let event_type := header_or_empty (x_github_event request) in
     verified <- _verify_signature payload signature ;;
     if negb verified then
       emit (Log Error (u "Invalid webhook signature") None) ;;;
       ret (jsonify "error" "Invalid signature" 403)
     else
       parsed <-
         try_except_json
           (emit (Loads payload) ;;;
            text <- lift (bytes_decode payload) ;;
            data <- lift (json_loads text) ;;
            ret (inl data))
           (emit (Log Error (u "Invalid JSON payload") None) ;;;
            ret (inr (jsonify "error" "Invalid JSON" 400))) ;;
       match parsed with
       | inr response => ret response
       | inl data =>
         message <- _process_event event_type data ;;
         (if str_truthy message && str_truthy (bot_admin_id config)
          then _send_notification message
          else ret tt) ;;;
         ret (jsonify "status" "success" 200)
       end)
    (fun e =>
       emit (Log Error (u "Error processing webhook") (Some e)) ;;;
       ret (jsonify "error" "Internal server error" 500)).

End WebhookHandler.

(** * Definitions used to state the properties *)

(** ** Signatures *)

(** The header GitHub sends for a body: the scheme, then the hexadecimal
    HMAC-SHA256 of the body under the key. *)
Definition github_signature (key payload : bytes) : str :=
  u "sha256=" ++ hexdigest (hmac_sha256 key payload).

(** Bit [i] of a body flipped, bit 0 being the lowest bit of the first
    byte. *)
Fixpoint flip_bit (i : nat) (b : bytes) : bytes :=
  match b with
  | [] => []
  | x :: b' =>
    if Nat.ltb i 8 then xor_byte (2 ^ N.of_nat i) x :: b'
    else x :: flip_bit (i - 8) b'
  end.

(** The hexadecimal HMAC-SHA256 of a body with each of its bits flipped in
    turn, and the check that none of them is the digest of the body. *)
Definition flip_digests (key payload : bytes) : list str :=
  map (fun i => hexdigest (hmac_sha256 key (flip_bit i payload)))
      (seq 0 (8 * List.length payload)).

Definition flips_rejected (key payload : bytes) : bool :=
  negb (existsb (str_eqb (hexdigest (hmac_sha256 key payload)))
                (flip_digests key payload)).

Definition is_hex (c : char) : bool :=
  (((48 <=? c) && (c <=? 57)) || ((97 <=? c) && (c <=? 102)))%N.

Definition unhex_digit (c : char) : N :=
  if (c <? 58)%N then (c - 48)%N else (c - 87)%N.

(** The bytes of a hexadecimal text. *)
Fixpoint unhex (s : str) : bytes :=
  match s with
  | h :: l :: s' => byte_of_N (unhex_digit h * 16 + unhex_digit l) :: unhex s'
  | _ => []
  end.

(** The comparison as the specification words it: a leading ["sha256="] is
    removed from the header, and what remains is compared with the digest as
    it stands. *)
Definition strip_leading (prefix s : str) : str :=
  if startswith prefix s then skipn (List.length prefix) s else s.

Definition compare_after_leading (key payload : bytes) (signature : str)
    : result bool :=
  compare_digest (hexdigest (hmac_sha256 key payload))
                 (strip_leading (u "sha256=") signature).

(** ** Messages and traces *)

(** [sub in s] on two [str]. *)
Fixpoint contains (sub s : str) : bool :=
  startswith sub s ||
  match s with
  | [] => false
  | _ :: s' => contains sub s'
  end.

(** The body that [dispatch] selects for an event type, outside its
    guard. *)
Definition event_body (str_container : json -> str) (event_type : str)
    (data : json) : result str :=
  if str_eqb event_type (u "push") then push_body str_container data
  else if str_eqb event_type (u "pull_request")
  then pull_request_body str_container data
  else if str_eqb event_type (u "issues") then issues_body str_container data
  else if str_eqb event_type (u "star") then star_body str_container data
  else if str_eqb event_type (u "fork") then fork_body str_container data
  else if str_eqb event_type (u "release")
  then release_body str_container data
  else Ok [].

(** The message a guarded body leaves. *)
Definition message_of (body : result str) : str :=
  match body with
  | Ok message => message
  | Raise _ => []
  end.

Definition is_log (e : event) : bool :=
  match e with
  | Log _ _ _ => true
  | _ => false
  end.

(** What the endpoint adds to its trace once the message is known. *)
Definition handoff (config : Config) (message : str) : list event :=
  if str_truthy message && str_truthy (bot_admin_id config)
  then [Notify message;
        Log Info (u "Webhook notification: " ++ message) None]
  else [].

(** ** Payloads the push formatter can render

    The structure that the extraction of [_process_push_event] relies on:
    the payload and a commit are objects, the repository, the pusher and a
    commit's author are objects when present, the ref is a string when
    present, and a commit id is a string (or a list) when present. *)
Definition is_dict (v : json) : bool :=
  match v with
  | JDict _ => true
  | _ => false
  end.

Definition is_str (v : json) : bool :=
  match v with
  | JStr _ => true
  | _ => false
  end.

Definition sliceable (v : json) : bool :=
  match v with
  | JStr _ | JList _ => true
  | _ => false
  end.

Definition commit_well_formed (commit : json) : bool :=
  match commit with
  | JDict d =>
    is_dict (get_or d (u "author") (JDict []))
    && sliceable (get_or d (u "id") (JStr []))
  | _ => false
  end.

Definition push_well_formed (fields : list (str * json)) : bool :=
  is_dict (get_or fields (u "repository") (JDict []))
  && is_dict (get_or fields (u "pusher") (JDict []))
  && is_str (get_or fields (u "ref") (JStr [])).

Definition commit_word (total : Z) : str :=
  if (total =? 1)%Z then u "commit" else u "commits".

Definition more_commits (total : Z) : str :=
  if (3 <? total)%Z
  then u "... and " ++ dec (total - 3) ++ u " more commits" ++ nl ++ nl
  else [].

(** ** The text of a push notification

    [member v k default] is [v.get(k, default)] for an object [v].
    [commit_text] is the entry of one commit: its message in bold, then its
    author and the first seven characters of its id. [push_renders]: the
    payload and its first three commits have the structure above. *)
Definition member (v : json) (k : str) (default : json) : json :=
  match v with
  | JDict d => get_or d k default
  | _ => default
  end.

Definition short_id (str_container : json -> str) (id : json) : str :=
  match id with
  | JStr s => firstn 7 s
  | JList l => str_container (JList (firstn 7 l))
  | _ => []
  end.

Definition commit_text (str_container : json -> str) (commit : json) : str :=
  u "🔸 **"
  ++ py_str str_container (member commit (u "message") (JStr (u "No message")))
  ++ u "**" ++ nl
  ++ u "👤 "
  ++ py_str str_container
       (member (member commit (u "author") (JDict [])) (u "name")
               (JStr (u "Unknown")))
  ++ u " • `" ++ short_id str_container (member commit (u "id") (JStr []))
  ++ u "`" ++ nl ++ nl.

Definition push_renders (fields : list (str * json)) (commits : list json)
    : bool :=
  push_well_formed fields && forallb commit_well_formed (firstn 3 commits).

(** ** Absent fields and their defaults

    [lacks_at path v]: the objects along [path] are present in [v] and the
    last key of the path is absent. [supply_at path x v]: [v] with that key
    set to [x]. *)
Definition lacks (k : str) (v : json) : bool :=
  match v with
  | JDict d =>
    match assoc k d with
    | None => true
    | Some _ => false
    end
  | _ => false
  end.

Definition supply (k : str) (x v : json) : json :=
  match v with
  | JDict d => JDict ((k, x) :: d)
  | _ => v
  end.

Fixpoint lacks_at (path : list str) (v : json) : bool :=
  match path with
  | [] => false
  | [k] => lacks k v
  | k :: rest =>
    match v with
    | JDict d =>
      match assoc k d with
      | Some sub => lacks_at rest sub
      | None => false
      end
    | _ => false
    end
  end.

Fixpoint supply_at (path : list str) (x v : json) : json :=
  match path with
  | [] => v
  | [k] => supply k x v
  | k :: rest =>
    match v with
    | JDict d =>
      match assoc k d with
      | Some sub => JDict ((k, supply_at rest x sub) :: d)
      | None => v
      end
    | _ => v
    end
  end.

Definition unknown : json := JStr (u "Unknown").
Definition empty_object : json := JDict [].
Definition empty_text : json := JStr [].

(** The default of every [.get] of the six handlers, by event type and by
    the path of the field in the payload. *)
Definition field_defaults : list (str * list str * json) :=
  [ (u "push", [u "repository"], empty_object);
    (u "push", [u "pusher"], empty_object);
    (u "push", [u "commits"], JList []);
    (u "push", [u "ref"], empty_text);
    (u "push", [u "repository"; u "full_name"], unknown);
    (u "push", [u "pusher"; u "name"], unknown);
    (u "push", [u "repository"; u "html_url"], empty_text);
    (u "pull_request", [u "action"], empty_text);
    (u "pull_request", [u "pull_request"], empty_object);
    (u "pull_request", [u "repository"], empty_object);
    (u "pull_request", [u "repository"; u "full_name"], unknown);
    (u "pull_request", [u "pull_request"; u "title"], JStr (u "No title"));
    (u "pull_request", [u "pull_request"; u "number"], JInt 0);
    (u "pull_request", [u "pull_request"; u "user"], empty_object);
    (u "pull_request", [u "pull_request"; u "user"; u "login"], unknown);
    (u "pull_request", [u "pull_request"; u "html_url"], empty_text);
    (u "issues", [u "action"], empty_text);
    (u "issues", [u "issue"], empty_object);
    (u "issues", [u "repository"], empty_object);
    (u "issues", [u "repository"; u "full_name"], unknown);
    (u "issues", [u "issue"; u "title"], JStr (u "No title"));
    (u "issues", [u "issue"; u "number"], JInt 0);
    (u "issues", [u "issue"; u "user"], empty_object);
    (u "issues", [u "issue"; u "user"; u "login"], unknown);
    (u "issues", [u "issue"; u "html_url"], empty_text);
    (u "star", [u "action"], empty_text);
    (u "star", [u "repository"], empty_object);
    (u "star", [u "sender"], empty_object);
    (u "star", [u "repository"; u "full_name"], unknown);
    (u "star", [u "repository"; u "stargazers_count"], JInt 0);
    (u "star", [u "sender"; u "login"], unknown);
    (u "star", [u "repository"; u "html_url"], empty_text);
    (u "fork", [u "repository"], empty_object);
    (u "fork", [u "forkee"], empty_object);
    (u "fork", [u "sender"], empty_object);
    (u "fork", [u "repository"; u "full_name"], unknown);
    (u "fork", [u "repository"; u "forks_count"], JInt 0);
    (u "fork", [u "sender"; u "login"], unknown);
    (u "fork", [u "forkee"; u "html_url"], empty_text);
    (u "release", [u "action"], empty_text);
    (u "release", [u "release"], empty_object);
    (u "release", [u "repository"], empty_object);
    (u "release", [u "repository"; u "full_name"], unknown);
    (u "release", [u "release"; u "tag_name"], unknown);
    (u "release", [u "release"; u "html_url"], empty_text);
    (u "release", [u "release"; u "author"], empty_object);
    (u "release", [u "release"; u "author"; u "login"], unknown) ].

(** The defaults of the loop over the commits of a push, by the path of the
    field in a commit. *)
Definition commit_defaults : list (list str * json) :=
  [ ([u "message"], JStr (u "No message"));
    ([u "author"], empty_object);
    ([u "author"; u "name"], unknown);
    ([u "id"], empty_text) ].

(** The tag of the release of a payload, ["Unknown"] when there is none:
    the default of the release name. *)
Definition release_tag (data : json) : json :=
  match data with
  | JDict d =>
    match get_or d (u "release") empty_object with
    | JDict r => get_or r (u "tag_name") unknown
    | _ => unknown
    end
  | _ => unknown
  end.

(** ** Closed examples

    A runtime: a decoder given by a finite table of texts with the value
    [json.loads] gives each, and a [str()] for payloads in which no [list]
    or [dict] is formatted. *)
Definition loads_table (table : list (str * json)) (text : str)
    : result json :=
  match assoc text table with
  | Some v => Ok v
  | None => Raise JSONDecodeError
  end.

Definition loads_example : str -> result json :=
  loads_table [(u "{}", JDict []); (u "[]", JList [])].

Definition no_container : json -> str := fun _ => [].

Definition secret_k : Config :=
  {| webhook_secret := u "k"; bot_admin_id := u "1" |}.

(** A request carrying the signature of its body under the key ["k"]. *)
Definition signed_request (event_type body_text : string) : Request :=
  {| get_data := ascii_bytes body_text;
     x_hub_signature_256 :=
       Some (github_signature (ascii_bytes "k") (ascii_bytes body_text));
     x_github_event := Some (u event_type) |}.

Definition unsigned_request (event_type body_text : string) : Request :=
  {| get_data := ascii_bytes body_text;
     x_hub_signature_256 := None;
     x_github_event := Some (u event_type) |}.

(** A header in which the scheme stands inside the digest of ["hello"]
    under the key ["k"], after its first eight digits. *)
Definition embedded_scheme_header : str :=
  u "406e4b43sha256=f87095aa86ca6299d25e875921fefa180f02043bb29bec5681c0c2d0".

(** An opened pull request, number 7, with the given title. *)
Definition opened_pull_request (title : str) : json :=
  JDict [(u "action", JStr (u "opened"));
         (u "pull_request",
          JDict [(u "number", JInt 7); (u "title", JStr title)])].

(** An opened pull request without a title. *)
Definition untitled_pull_request : json :=
  JDict [(u "action", JStr (u "opened"));
         (u "pull_request", JDict [(u "number", JInt 7)])].

(** A push of [n] commits to the branch [main], each with an id only. *)
Definition push_of (n : nat) : list (str * json) :=
  [(u "ref", JStr (u "refs/heads/main"));
   (u "commits",
    JList (repeat (JDict [(u "id", JStr (u "0123456789abcdef"))]) n))].

(** A push of one commit, with further fields of the payload. *)
Definition push_with (more : list (str * json)) (commit : json)
    : list (str * json) :=
  more ++ [(u "commits", JList [commit])].

(** ** Proof automation *)

(** A case for each branch of the dispatch on the event type. *)
Ltac by_event_type :=
  unfold event_body, dispatch;
  repeat match goal with
         | |- context [if str_eqb ?a ?b then _ else _] =>
           destruct (str_eqb a b)
         end.

(** The comparisons of two literals are evaluated. *)
Ltac eval_keys :=
  repeat match goal with
         | |- context [str_eqb (u ?a) (u ?b)] =>
           let r := eval vm_compute in (str_eqb (u a) (u b)) in
           change (str_eqb (u a) (u b)) with r
         end;
  cbv iota.

(** [H : lacks_at path v = true], for a given path, is turned into the
    equations it stands for. *)
Ltac crack H :=
  repeat (cbv [lacks_at lacks] in H;
          match type of H with
          | context [match ?x with _ => _ end] =>
            destruct x eqn:?; try discriminate H
          end).

(** * utils.py: the other helpers *)

(** [s[:k]], for a [k] of either sign: a negative [k] counts from the
    end. *)
Definition slice_stop {A} (k : Z) (s : list A) : list A :=
  if (k <? 0)%Z
  then firstn (Z.to_nat (Z.of_nat (List.length s) + k)) s
  else firstn (Z.to_nat k) s.

Definition truncate_text (text : str) (max_length : Z) : str :=
  if negb (str_truthy text) then []
  else if (Z.of_nat (List.length text) <=? max_length)%Z then text
  else slice_stop (max_length - 3) text ++ u "...".

Definition equals_sign : char := 61%N.

(** [s.split(c, 1)[1]]: what follows the first [c], when there is one. *)
Fixpoint after_first (c : char) (s : str) : option str :=
  match s with
  | [] => None
  | x :: s' => if char_eqb x c then Some s' else after_first c s'
  end.

Definition parse_webhook_signature (signature : str) : str :=
  if negb (str_truthy signature) then []
  else
    match after_first equals_sign signature with
    | Some hash => hash
    | None => signature
    end.

(** The one exception the helpers below raise. *)
Inductive value_error := ValueError.

(** [range(start, stop, step)] for a positive [step]; each turn advances,
    so that [fuel = stop] turns are enough from [start = 0]. *)
Fixpoint range_from (fuel start stop step : nat) : list nat :=
  match fuel with
  | O => []
  | S fuel' =>
    if Nat.ltb start stop
    then start :: range_from fuel' (start + step) stop step
    else []
  end.

(** [range(0, stop, step)]: a zero step is refused, a negative one gives
    nothing. *)
Definition py_range (stop : nat) (step : Z) : list nat + value_error :=
  if (step =? 0)%Z then inr ValueError
  else if (step <? 0)%Z then inl []
  else inl (range_from stop 0 stop (Z.to_nat step)).

(** [lst[i:j]] for [0 <= i] *)
Definition slice {A} (i j : nat) (l : list A) : list A :=
  firstn (j - i) (skipn i l).

Definition chunk_list {A} (lst : list A) (chunk_size : Z)
    : list (list A) + value_error :=
  match py_range (List.length lst) chunk_size with
  | inl indices =>
    inl (map (fun i => slice i (i + Z.to_nat chunk_size) lst) indices)
  | inr e => inr e
  end.

(** The characters of the class in the pattern of [sanitize_filename]:
    the angle brackets, the colon, the double quote, the two slashes, the
    bar, the question mark and the star. *)
Definition filename_invalid : str := [60; 62; 58; 34; 47; 92; 124; 63; 42]%N.

Definition space : char := 32%N.
Definition underscore : char := 95%N.
Definition dot : char := 46%N.

(** [s.lstrip(chars)], [s.rstrip(chars)], [s.strip(chars)] *)
Fixpoint lstrip (chars s : str) : str :=
  match s with
  | [] => []
  | c :: s' => if char_in c chars then lstrip chars s' else s
  end.

Definition rstrip (chars s : str) : str := rev (lstrip chars (rev s)).

Definition strip (chars s : str) : str := rstrip chars (lstrip chars s).

Definition sanitize_filename (filename : str) : str :=
  let sanitized :=
    filter (fun c => negb (char_in c filename_invalid)) filename in
  let sanitized :=
    map (fun c => if char_eqb c space then underscore else c) sanitized in
  let sanitized := strip [dot; space] sanitized in
  if str_truthy sanitized then sanitized else u "untitled".

Definition slash : char := 47%N.

(** [s.split(c)]: the pieces between the occurrences of [c]. *)
Fixpoint split_on (c : char) (s : str) : list str :=
  match s with
  | [] => [[]]
  | x :: s' =>
    if char_eqb x c then [] :: split_on c s'
    else
      match split_on c s' with
      | piece :: pieces => (x :: piece) :: pieces
      | [] => [[x]]
      end
  end.

(** The longest run of characters other than [c] at the head of [s], and
    what follows it. *)
Fixpoint span_not (c : char) (s : str) : str * str :=
  match s with
  | [] => ([], [])
  | x :: s' =>
    if char_eqb x c then ([], s)
    else let (run, rest) := span_not c s' in (x :: run, rest)
  end.

(** The longest non-empty beginning of [s] that is followed by [mark]. *)
Fixpoint before_last (mark s : str) : option str :=
  match s with
  | [] => None
  | c :: s' =>
    match before_last mark s' with
    | Some p => Some (c :: p)
    | None => if startswith mark s' then Some [c] else None
    end
  end.

(** [s.endswith(suffix)] *)
Definition endswith (suffix s : str) : bool :=
  startswith (rev suffix) (rev s).

Section UnicodeClasses.

(** The class [\s] of [re] and the characters that [str.strip()] removes
    are both the white space of the Unicode database; the helpers are
    modelled for any such class. *)
Variable re_space : char -> bool.

(** [re.search(invalid_chars, s)] finds something: a character of that
    class or a white space. *)
Definition has_invalid_char (s : str) : bool :=
  existsb (fun c => char_in c filename_invalid || re_space c) s.

Definition is_valid_repo_path (repo_path : str) : bool :=
  if negb (str_truthy repo_path) || negb (char_in slash repo_path)
  then false
  else
    match split_on slash repo_path with
    | [owner; repo] =>
      if negb (str_truthy owner) || negb (str_truthy repo) then false
      else if has_invalid_char owner || has_invalid_char repo then false
      else true
    | _ => false
    end.

(** [s.strip()] *)
Fixpoint lstrip_space (s : str) : str :=
  match s with
  | [] => []
  | c :: s' => if re_space c then lstrip_space s' else s
  end.

Definition strip_space (s : str) : str :=
  rev (lstrip_space (rev (lstrip_space s))).

(** The two groups of [re.match(r'([^/]+)/([^/]+)', s)]. A group takes the
    whole run of characters other than the slash: the first must be
    followed by a slash, which a shorter run is not, and nothing follows the
    second. *)
Definition match_owner_repo (s : str) : option (str * str) :=
  let (owner, rest) := span_not slash s in
  match owner, rest with
  | _ :: _, _ :: rest' =>
    let (repo, _) := span_not slash rest' in
    match repo with
    | [] => None
    | _ :: _ => Some (owner, repo)
    end
  | _, _ => None
  end.

(** [re.match(r'https://github\.com/([^/]+)/([^/]+)/?', s)] *)
Definition match_https (s : str) : option (str * str) :=
  if startswith (u "https://github.com/") s
  then match_owner_repo (skipn (List.length (u "https://github.com/")) s)
  else None.

(** [re.match(r'git@github\.com:([^/]+)/([^/]+)\.git', s)]: the second
    group is followed by [.git], and being greedy it is the longest part of
    its run that is. *)
Definition match_ssh (s : str) : option (str * str) :=
  if startswith (u "git@github.com:") s
  then
    let (owner, rest) :=
      span_not slash (skipn (List.length (u "git@github.com:")) s) in
    match owner, rest with
    | _ :: _, _ :: rest' =>
      let (run, _) := span_not slash rest' in
      match before_last (u ".git") run with
      | Some repo => Some (owner, repo)
      | None => None
      end
    | _, _ => None
    end
  else None.

(** The removal of a final [.git]:
    [if repo.endswith('.git'): repo = repo[:-4]]. *)
Definition drop_git (repo : str) : str :=
  if endswith (u ".git") repo then slice_stop (-4) repo else repo.

(** The dictionary returned, as the pair of its [owner] and [repo]. *)
Definition extract_repo_info (repo_url : str) : str * str :=
  let s := strip_space repo_url in
  match match_https s with
  | Some (owner, repo) => (owner, drop_git repo)
  | None =>
    match match_ssh s with
    | Some (owner, repo) => (owner, drop_git repo)
    | None =>
      match match_owner_repo s with
      | Some (owner, repo) => (owner, drop_git repo)
      | None => ([], [])
      end
    end
  end.

End UnicodeClasses.

(** ** Definitions used to state the properties of the helpers *)

(** What [escape_markdown] writes for one character. *)
Definition escape_char (c : char) : str :=
  if char_in c escape_chars then [backslash; c] else [c].

(** The reading back of an escaped text: a backslash before a special
    character is dropped. *)
Fixpoint unescape (s : str) : str :=
  match s with
  | [] => []
  | b :: rest =>
    match rest with
    | c :: s' =>
      if char_eqb b backslash && char_in c escape_chars
      then c :: unescape s'
      else b :: unescape rest
    | [] => [b]
    end
  end.

Definition special_count (s : str) : nat :=
  List.length (filter (fun c => char_in c escape_chars) s).

(** A text that stripping cannot shorten: neither its first nor its last
    character is among [chars]. *)
Definition trimmed (chars s : str) : Prop :=
  (forall c rest, s = c :: rest -> char_in c chars = false)
  /\ (forall c rest, s = rest ++ [c] -> char_in c chars = false).

(** What [sanitize_filename] promises of its result. *)
Definition filename_clean (s : str) : Prop :=
  s <> []
  /\ (forall c, In c s -> char_in c filename_invalid = false /\ c <> space)
  /\ trimmed [dot; space] s.


(** * webhook_handler.py: definitions used to state further properties *)

(** The events for which the handlers write a message, read off their
    filters: a push with commits, a pull request opened, closed or merged,
    an issue opened, closed or reopened, a star created, any fork, a
    release published. *)
Definition notifiable (event_type : str) (fields : list (str * json))
    : bool :=
  let action := get_or fields (u "action") (JStr []) in
  if str_eqb event_type (u "push")
  then truthy (get_or fields (u "commits") (JList []))
  else if str_eqb event_type (u "pull_request")
  then py_in action [u "opened"; u "closed"; u "merged"]
  else if str_eqb event_type (u "issues")
  then py_in action [u "opened"; u "closed"; u "reopened"]
  else if str_eqb event_type (u "star") then negb (py_ne action (u "created"))
  else if str_eqb event_type (u "fork") then true
  else if str_eqb event_type (u "release")
  then negb (py_ne action (u "published"))
  else false.

Definition event_types : list str :=
  [u "push"; u "pull_request"; u "issues"; u "star"; u "fork"; u "release"].

(** ** Further closed examples *)

(** A request with the given body, signed under the key ["k"]. *)
Definition signed_body (event_type : string) (body_bytes : bytes)
    : Request :=
  {| get_data := body_bytes;
     x_hub_signature_256 :=
       Some (github_signature (ascii_bytes "k") body_bytes);
     x_github_event := Some (u event_type) |}.

(** A request whose signature header is the one character [é]. *)
Definition accented_signature_request : Request :=
  {| get_data := ascii_bytes "{}";
     x_hub_signature_256 := Some [233%N];
     x_github_event := Some (u "fork") |}.

(** * config.py *)

Module ConfigPy.

(** The environment once [load_dotenv] has run: a variable is set or not. *)
Definition environ := str -> option str.

(** [os.getenv(name, default)] *)
Definition getenv (env : environ) (name default : str) : str :=
  match env name with
  | Some v => v
  | None => default
  end.

Record Config := {
  telegram_token : str;
  github_token : str;
  github_username : str;
  webhook_port : Z;
  webhook_host : str;
  webhook_secret : str;
  github_api_base : str;
  bot_admin_id : str
}.

Section Init.

(** [int(s)] on a [str] belongs to the Python runtime: it returns or raises
    [ValueError]. *)
Variable int : str -> Z + value_error.

Definition __init__ (env : environ) : Config + value_error :=
  let telegram_token := getenv env (u "TELEGRAM_BOT_TOKEN") [] in
  if negb (str_truthy telegram_token) then inr ValueError
  else
    let github_token := getenv env (u "GITHUB_TOKEN") [] in
    if negb (str_truthy github_token) then inr ValueError
    else
      let github_username := getenv env (u "GITHUB_USERNAME") [] in
      match int (getenv env (u "WEBHOOK_PORT") (u "5000")) with
      | inr e => inr e
      | inl webhook_port =>
        inl {| telegram_token := telegram_token;
               github_token := github_token;
               github_username := github_username;
               webhook_port := webhook_port;
               webhook_host := getenv env (u "WEBHOOK_HOST") (u "0.0.0.0");
               webhook_secret := getenv env (u "GITHUB_WEBHOOK_SECRET") [];
               github_api_base := u "https://api.github.com";
               bot_admin_id := getenv env (u "BOT_ADMIN_ID") [] |}
      end.

End Init.

Definition validate (self : Config) : bool + value_error :=
  if negb (str_truthy (telegram_token self)) then inr ValueError
  else if negb (str_truthy (github_token self)) then inr ValueError
  else inl true.

End ConfigPy.

(** What [WebhookHandler] reads of its configuration. *)
Definition handler_config (c : ConfigPy.Config) : Config :=
  {| webhook_secret := ConfigPy.webhook_secret c;
     bot_admin_id := ConfigPy.bot_admin_id c |}.

(** An environment with the two tokens and nothing else, and an [int] that
    reads the default port. *)
Definition tokens_only : ConfigPy.environ :=
  fun name =>
    if str_eqb name (u "TELEGRAM_BOT_TOKEN") then Some (u "t")
    else if str_eqb name (u "GITHUB_TOKEN") then Some (u "g")
    else None.

Definition int_5000 (s : str) : Z + value_error :=
  if str_eqb s (u "5000") then inl 5000%Z else inr ValueError.

(** The white space of a Python [str], which [\s] matches and [strip()]
    removes: U+0009 to U+000D, U+001C to U+0020, U+0085, U+00A0, U+1680,
    U+2000 to U+200A, U+2028, U+2029, U+202F, U+205F and U+3000. *)
Definition unicode_space (c : char) : bool :=
  (((9 <=? c) && (c <=? 13)) || ((28 <=? c) && (c <=? 32))
   || (c =? 133) || (c =? 160) || (c =? 5760)
   || ((8192 <=? c) && (c <=? 8202))
   || (c =? 8232) || (c =? 8233) || (c =? 8239) || (c =? 8287)
   || (c =? 12288))%N.


(** * Properties *)

(** ** The hash functions on published test vectors *)

Example sha256_abc :
  hexdigest (Sha256.digest (ascii_bytes "abc"))
  = u "ba7816bf8f01cfea414140de5dae2223b00361a396177a9cb410ff61f20015ad".
Proof. vm_compute. reflexivity. Qed.

Example sha256_two_blocks :
  hexdigest (Sha256.digest
    (ascii_bytes "abcdbcdecdefdefgefghfghighijhijkijkljklmklmnlmnomnopnopq"))
  = u "248d6a61d20638b8e5c026930c3e6039a33ce45964ff2167f6ecedd419db06c1".
Proof. vm_compute. reflexivity. Qed.

Example hmac_sha256_fox :
  hexdigest (hmac_sha256 (ascii_bytes "key")
    (ascii_bytes "The quick brown fox jumps over the lazy dog"))
  = u "f7bc83f430538424b13298e6aa6fb143ef4d59a14946175997479dbc2d1a3cd8".
Proof. vm_compute. reflexivity. Qed.


(** ** Strings: basic facts *)

Lemma str_eqb_refl (s : str) : str_eqb s s = true.
Proof.
  induction s as [|c s IH]; simpl; [reflexivity|].
  unfold char_eqb. now rewrite N.eqb_refl.
Qed.

Lemma str_eqb_eq (a b : str) : str_eqb a b = true <-> a = b.
Proof.
  split; [|intros ->; apply str_eqb_refl].
  revert b; induction a as [|x a IH]; intros [|y b]; simpl;
    try discriminate; auto.
  intros H. apply andb_true_iff in H as [Hc Hs].
  apply N.eqb_eq in Hc. subst. f_equal. now apply IH.
Qed.

Lemma str_truthy_true (s : str) : str_truthy s = true <-> s <> [].
Proof. destruct s; simpl; split; congruence. Qed.

Lemma sha256_prefix_points : u "sha256=" = [115; 104; 97; 50; 53; 54; 61]%N.
Proof. reflexivity. Qed.

Lemma replace_from_absent (o : char) (old new s : str) :
  (forall c, In c s -> c <> o) ->
  replace_from 0 (o :: old) new s = s.
Proof.
  induction s as [|c s IH]; intros Hs; [reflexivity|].
  cbn [replace_from startswith].
  assert (Hc : char_eqb o c = false).
  { apply N.eqb_neq. intros ->. apply (Hs c); [now left | reflexivity]. }
  rewrite Hc. cbn [andb]. f_equal. apply IH.
  intros d Hd. apply Hs. now right.
Qed.

(** *** Hexadecimal digests *)

Lemma hex_of_byte_hex (b : byte) : forallb is_hex (hex_of_byte b) = true.
Proof. destruct b; reflexivity. Qed.

Lemma hexdigest_hex (d : bytes) : forallb is_hex (hexdigest d) = true.
Proof.
  induction d as [|b d IH]; [reflexivity|].
  unfold hexdigest in *. cbn [flat_map].
  rewrite forallb_app, IH, hex_of_byte_hex. reflexivity.
Qed.

Lemma is_hex_bounds (c : char) :
  is_hex c = true -> (c < 128)%N /\ c <> 115%N.
Proof.
  unfold is_hex.
  rewrite orb_true_iff, !andb_true_iff, !N.leb_le. lia.
Qed.

Lemma hexdigest_ascii (d : bytes) : is_ascii (hexdigest d) = true.
Proof.
  unfold is_ascii. apply forallb_forall. intros c Hc.
  pose proof (hexdigest_hex d) as H.
  rewrite forallb_forall in H. apply H in Hc.
  apply is_hex_bounds in Hc. apply N.ltb_lt. tauto.
Qed.

Lemma unhex_hexdigest (d : bytes) : unhex (hexdigest d) = d.
Proof.
  induction d as [|b d IH]; [reflexivity|].
  unfold hexdigest in *. cbn [flat_map hex_of_byte app unhex].
  rewrite IH. f_equal. destruct b; reflexivity.
Qed.

Lemma hexdigest_inj (a b : bytes) : hexdigest a = hexdigest b -> a = b.
Proof.
  intros H. rewrite <- (unhex_hexdigest a), <- (unhex_hexdigest b).
  now rewrite H.
Qed.

(** Stripping the scheme from a well-formed header leaves the digest. *)
Lemma strip_github_signature (d : bytes) :
  str_replace (u "sha256=") [] (u "sha256=" ++ hexdigest d) = hexdigest d.
Proof.
  rewrite sha256_prefix_points. cbn.
  apply replace_from_absent. intros c Hc.
  pose proof (hexdigest_hex d) as H.
  rewrite forallb_forall in H. apply H in Hc.
  now apply is_hex_bounds in Hc.
Qed.

(** ** Signature verification *)

Section Verification.

Variable config : Config.

(** With a secret and a header, the answer is the comparison of the digest
    with the header from which every ["sha256="] has been removed. *)
Lemma verify_compares (key payload : bytes) (signature : str) :
  webhook_secret config <> [] ->
  signature <> [] ->
  str_encode (webhook_secret config) = Ok key ->
  _verify_signature config payload signature
  = ([], compare_digest (hexdigest (hmac_sha256 key payload))
                        (str_replace (u "sha256=") [] signature)).
Proof.
  intros Hsecret Hsig Hkey. unfold _verify_signature.
  apply str_truthy_true in Hsecret. apply str_truthy_true in Hsig.
  rewrite Hsecret, Hsig, Hkey. reflexivity.
Qed.

Lemma verify_github_signature (key payload payload' : bytes) :
  webhook_secret config <> [] ->
  str_encode (webhook_secret config) = Ok key ->
  _verify_signature config payload' (github_signature key payload)
  = ([], Ok (str_eqb (hexdigest (hmac_sha256 key payload'))
                     (hexdigest (hmac_sha256 key payload)))).
Proof.
  intros Hsecret Hkey.
  rewrite (@verify_compares key); auto.
  - unfold github_signature. rewrite strip_github_signature.
    unfold compare_digest. now rewrite !hexdigest_ascii.
  - unfold github_signature. rewrite sha256_prefix_points. discriminate.
Qed.

Lemma verify_without_secret (payload : bytes) (signature : str) :
  webhook_secret config = [] ->
  _verify_signature config payload signature
  = ([Log Warning
        (u "No webhook secret configured, skipping signature verification")
        None],
     Ok true).
Proof. intros H. unfold _verify_signature. now rewrite H. Qed.

End Verification.

(** C9. Empty secret bypass: with an empty (unset) secret, verification
    answers true for every body and every signature header, the empty one
    included; it only logs a warning. *)
Theorem empty_secret_bypass (admin : str) (payload : bytes) (signature : str) :
  _verify_signature {| webhook_secret := []; bot_admin_id := admin |}
                    payload signature
  = ([Log Warning
        (u "No webhook secret configured, skipping signature verification")
        None],
     Ok true).
Proof. now apply verify_without_secret. Qed.

(** A flip within the body changes it. *)
Lemma xor_byte_differs (i : nat) (x : byte) :
  i < 8 -> xor_byte (2 ^ N.of_nat i) x <> x.
Proof.
  intros Hi.
  do 8 (destruct i as [|i]; [destruct x; discriminate|]).
  lia.
Qed.

Lemma flip_bit_differs (b : bytes) (i : nat) :
  i < 8 * List.length b -> flip_bit i b <> b.
Proof.
  revert i. induction b as [|x b IH]; intros i Hi;
    cbn [List.length] in Hi; [lia|].
  cbn [flip_bit]. destruct (Nat.ltb i 8) eqn:E.
  - apply Nat.ltb_lt in E. intros H. injection H as H.
    now apply (@xor_byte_differs i x).
  - apply Nat.ltb_ge in E. intros H. injection H as H.
    apply (IH (i - 8)); [lia | assumption].
Qed.

(** Where the check succeeds, a flipped bit changes the HMAC. *)
Lemma flips_rejected_differs (key payload : bytes) (i : nat) :
  flips_rejected key payload = true ->
  i < 8 * List.length payload ->
  hmac_sha256 key (flip_bit i payload) <> hmac_sha256 key payload.
Proof.
  intros Hcheck Hi Heq. unfold flips_rejected in Hcheck.
  apply negb_true_iff in Hcheck.
  assert (E : existsb (str_eqb (hexdigest (hmac_sha256 key payload)))
                      (flip_digests key payload) = true).
  { apply existsb_exists.
    exists (hexdigest (hmac_sha256 key (flip_bit i payload))). split.
    - unfold flip_digests.
      apply (in_map (fun i => hexdigest (hmac_sha256 key (flip_bit i payload)))).
      apply in_seq. lia.
    - rewrite Heq. apply str_eqb_refl. }
  congruence.
Qed.

(** Under the key ["k"], none of the forty bodies one bit away from
    ["hello"] has its HMAC-SHA256. *)
Lemma flips_rejected_hello :
  flips_rejected (ascii_bytes "k") (ascii_bytes "hello") = true.
Proof. vm_cast_no_check (eq_refl true). Qed.




(** ** Classification never raises *)

Lemma guarded_outcome (what : string) (body : result str) :
  outcome (guarded what body) = Ok (message_of body).
Proof. destruct body; reflexivity. Qed.

Lemma guarded_logs (what : string) (body : result str) :
  forallb is_log (trace (guarded what body)) = true.
Proof. destruct body; reflexivity. Qed.

Lemma try_except_returns {A} (m : io A) (h : exn -> io A) (a : A) :
  outcome m = Ok a -> try_except m h = m.
Proof. destruct m as [t [x|e]]; cbn; [reflexivity | discriminate]. Qed.

Section Classification.

Variable str_container : json -> str.

Lemma dispatch_outcome (event_type : str) (data : json) :
  outcome (dispatch str_container event_type data)
  = Ok (message_of (event_body str_container event_type data)).
Proof. by_event_type; try apply guarded_outcome; reflexivity. Qed.

Lemma dispatch_logs (event_type : str) (data : json) :
  forallb is_log (trace (dispatch str_container event_type data)) = true.
Proof. by_event_type; try apply guarded_logs; reflexivity. Qed.

Lemma process_event_dispatch (event_type : str) (data : json) :
  _process_event str_container event_type data
  = dispatch str_container event_type data.
Proof.
  unfold _process_event. eapply try_except_returns, dispatch_outcome.
Qed.

Lemma process_event_outcome (event_type : str) (data : json) :
  outcome (_process_event str_container event_type data)
  = Ok (message_of (event_body str_container event_type data)).
Proof. rewrite process_event_dispatch. apply dispatch_outcome. Qed.

Lemma process_event_logs (event_type : str) (data : json) :
  forallb is_log (trace (_process_event str_container event_type data))
  = true.
Proof. rewrite process_event_dispatch. apply dispatch_logs. Qed.

(** C7. Classification totality: for every event type and every JSON
    payload, [_process_event] returns a message and does not raise; when
    the extraction of the fields raises (a sub-object of the wrong type, a
    payload that is not an object), the message is empty. *)
Theorem classification_total (event_type : str) (data : json) :
  (exists message,
     outcome (_process_event str_container event_type data) = Ok message)
  /\ (forall e,
        event_body str_container event_type data = Raise e ->
        outcome (_process_event str_container event_type data) = Ok []).
Proof.
  rewrite process_event_outcome. split.
  - eexists. reflexivity.
  - intros e ->. reflexivity.
Qed.

End Classification.

(** A push whose payload is a list, and a push whose commits are the number
    5: the extraction raises and the message is empty. *)
Lemma classification_total_witness :
  event_body no_container (u "push") (JList []) = Raise AttributeError
  /\ outcome (_process_event no_container (u "push") (JList [])) = Ok []
  /\ event_body no_container (u "push") (JDict [(u "commits", JInt 5)])
     = Raise TypeError
  /\ outcome (_process_event no_container (u "push")
                             (JDict [(u "commits", JInt 5)])) = Ok [].
Proof.
  split; [reflexivity|]. split.
  - apply (proj2 (classification_total no_container (u "push") (JList []))
                 AttributeError).
    reflexivity.
  - split; [reflexivity|].
    apply (proj2 (classification_total no_container (u "push")
                    (JDict [(u "commits", JInt 5)])) TypeError).
    reflexivity.
Defined.

(** ** The endpoint *)

Section Endpoint.

Variable json_loads : str -> result json.
Variable str_container : json -> str.
Variable config : Config.
Variable request : Request.

Local Abbreviation payload := (get_data request).
Local Abbreviation signature := (header_or_empty (x_hub_signature_256 request)).
Local Abbreviation event_type := (header_or_empty (x_github_event request)).

(** A request that is refused leaves the trace of the verification and one
    more log entry. *)
Lemma handle_refused (t : list event) :
  _verify_signature config payload signature = (t, Ok false) ->
  handle_webhook json_loads str_container config request
  = (t ++ [Log Error (u "Invalid webhook signature") None],
     Ok (jsonify "error" "Invalid signature" 403)).
Proof.
  intros H. unfold handle_webhook.
  rewrite H. reflexivity.
Qed.

(** A verified request whose body decodes: verification, decoding,
    classification and the hand-off follow one another, and the answer is
    the acknowledgment. *)
Lemma handle_accepted (t t' : list event) (text message : str) (data : json) :
  _verify_signature config payload signature = (t, Ok true) ->
  bytes_decode payload = Ok text ->
  json_loads text = Ok data ->
  _process_event str_container event_type data = (t', Ok message) ->
  handle_webhook json_loads str_container config request
  = (t ++ Loads payload :: t' ++ handoff config message,
     Ok (jsonify "status" "success" 200)).
Proof.
  intros Hv Hd Hj Hp. unfold handle_webhook, handoff.
  rewrite Hv. cbn. rewrite Hd. cbn. rewrite Hj. cbn. rewrite Hp. cbn.
  destruct (str_truthy message && str_truthy (bot_admin_id config)); cbn;
    rewrite ?app_nil_r; reflexivity.
Qed.

Lemma outcome_split {A} (m : io A) (r : result A) :
  outcome m = r -> m = (trace m, r).
Proof. destruct m; cbn; now intros ->. Qed.
Arguments outcome_split {A m r} _.

Lemma logs_not_other (t : list event) (e : event) :
  forallb is_log t = true -> is_log e = false -> ~ In e t.
Proof.
  intros Ht He Hin. rewrite forallb_forall in Ht.
  apply Ht in Hin. congruence.
Qed.
Arguments logs_not_other {t} e _ _.

Lemma verify_logs (p : bytes) (s : str) :
  forallb is_log (trace (_verify_signature config p s)) = true.
Proof.
  unfold _verify_signature.
  destruct (str_truthy (webhook_secret config)); [|reflexivity].
  destruct (str_truthy s); [|reflexivity].
  destruct (str_encode (webhook_secret config)) as [key|e]; [|reflexivity].
  unfold bind, lift. cbn [negb].
  destruct (compare_digest _ _); reflexivity.
Qed.

(** [_send_notification] is entered for a non-empty message when the admin
    id is not empty, and only then. *)
Lemma notify_in_handoff (message m : str) :
  In (Notify m) (handoff config message)
  <-> m = message /\ message <> [] /\ bot_admin_id config <> [].
Proof.
  unfold handoff. rewrite <- !str_truthy_true.
  destruct (str_truthy message), (str_truthy (bot_admin_id config));
    cbn [andb In]; split;
    try (intros [H|[H|[]]]; [injection H as <-; auto | discriminate]);
    try contradiction;
    try (intros (_ & ? & ?); discriminate).
  intros (-> & _ & _). now left.
Qed.

(** C3, as the code has it. Endpoint status policy: every request that
    passes the signature verification and whose body decodes as JSON is
    answered 200 with the acknowledgment, whatever the event and whether or
    not a notification was made; an error met while classifying or
    formatting is caught inside the classification and does not change the
    answer. *)
Theorem verified_request_acknowledged (text : str) (data : json) :
  outcome (_verify_signature config payload signature) = Ok true ->
  bytes_decode payload = Ok text ->
  json_loads text = Ok data ->
  exists response,
    outcome (handle_webhook json_loads str_container config request)
    = Ok response
    /\ status response = 200%Z
    /\ body response = JDict [(u "status", JStr (u "success"))].
Proof.
  intros Hv Hd Hj. exists (jsonify "status" "success" 200).
  split; [|split; reflexivity].
  rewrite (handle_accepted (outcome_split Hv) Hd Hj
             (outcome_split
                (process_event_outcome str_container event_type data))).
  reflexivity.
Qed.

(** C8. Missing signature rejection: with a secret configured and an empty
    (or absent) signature header, the verification answers false and the
    endpoint answers 403 with an error body; its trace holds the two log
    entries and no attempt to decode the payload, and the answer does not
    depend on the JSON decoder. *)
Theorem missing_signature_rejected :
  webhook_secret config <> [] ->
  signature = [] ->
  outcome (_verify_signature config payload signature) = Ok false
  /\ handle_webhook json_loads str_container config request
     = ([Log Error (u "No signature provided in webhook request") None;
         Log Error (u "Invalid webhook signature") None],
        Ok {| body := JDict [(u "error", JStr (u "Invalid signature"))];
              status := 403 |})
  /\ (forall p,
        ~ In (Loads p)
             (trace (handle_webhook json_loads str_container config request))).
Proof.
  intros Hsecret Hsig.
  assert (Hv : _verify_signature config payload signature
               = ([Log Error (u "No signature provided in webhook request")
                       None], Ok false)).
  { unfold _verify_signature. apply str_truthy_true in Hsecret.
    rewrite Hsecret, Hsig. reflexivity. }
  split; [now rewrite Hv|].
  rewrite (handle_refused Hv). split; [reflexivity|].
  intros p [H|[H|[]]]; discriminate.
Qed.

(** C10. Admin-id gating: for a verified request whose body decodes as
    JSON, [_send_notification] is entered, with the message of the
    classification, if and only if that message is not empty and
    [bot_admin_id] is not empty; the endpoint answers 200 in every case. *)
Theorem admin_id_gates_delivery (text : str) (data : json) :
  outcome (_verify_signature config payload signature) = Ok true ->
  bytes_decode payload = Ok text ->
  json_loads text = Ok data ->
  exists message,
    outcome (_process_event str_container event_type data) = Ok message
    /\ (forall m,
          In (Notify m)
             (trace (handle_webhook json_loads str_container config request))
          <-> m = message /\ message <> [] /\ bot_admin_id config <> [])
    /\ outcome (handle_webhook json_loads str_container config request)
       = Ok (jsonify "status" "success" 200).
Proof.
  intros Hv Hd Hj.
  exists (message_of (event_body str_container event_type data)).
  set (message := message_of _).
  assert (Hp : outcome (_process_event str_container event_type data)
               = Ok message) by apply process_event_outcome.
  split; [exact Hp|].
  rewrite (handle_accepted (outcome_split Hv) Hd Hj (outcome_split Hp)).
  split; [|reflexivity].
  intros m. cbn [trace fst].
  rewrite in_app_iff. cbn [In]. rewrite in_app_iff, notify_in_handoff.
  pose proof (logs_not_other (Notify m) (verify_logs payload signature)
                             eq_refl).
  pose proof (logs_not_other (Notify m)
                (process_event_logs str_container event_type data) eq_refl).
  intuition discriminate.
Qed.

End Endpoint.

(** A signed [fork] event with the body [{}] is acknowledged. *)
Lemma verified_request_acknowledged_witness :
  exists response,
    outcome (handle_webhook loads_example no_container secret_k
                            (signed_request "fork" "{}"))
    = Ok response
    /\ status response = 200%Z
    /\ body response = JDict [(u "status", JStr (u "success"))].
Proof.
  apply (@verified_request_acknowledged loads_example no_container secret_k
           (signed_request "fork" "{}") (u "{}") (JDict []));
    vm_compute; reflexivity.
Defined.

(** C3 as stated fails on a signed [push] event whose body is the JSON
    list [[]]: the extraction of the fields raises, and the answer is 200,
    not 500. *)
Lemma internal_error_answered_200 :
  let request := signed_request "push" "[]" in
  outcome (_verify_signature secret_k (get_data request)
             (header_or_empty (x_hub_signature_256 request))) = Ok true
  /\ bytes_decode (get_data request) = Ok (u "[]")
  /\ loads_example (u "[]") = Ok (JList [])
  /\ event_body no_container (u "push") (JList []) = Raise AttributeError
  /\ outcome (handle_webhook loads_example no_container secret_k request)
     = Ok {| body := JDict [(u "status", JStr (u "success"))];
             status := 200 |}.
Proof. vm_compute. repeat split. Qed.

(** An unsigned request to an endpoint whose secret is ["k"]. *)
Lemma missing_signature_rejected_witness :
  outcome (_verify_signature secret_k (ascii_bytes "{}") []) = Ok false
  /\ handle_webhook loads_example no_container secret_k
                    (unsigned_request "fork" "{}")
     = ([Log Error (u "No signature provided in webhook request") None;
         Log Error (u "Invalid webhook signature") None],
        Ok {| body := JDict [(u "error", JStr (u "Invalid signature"))];
              status := 403 |})
  /\ (forall p,
        ~ In (Loads p)
             (trace (handle_webhook loads_example no_container secret_k
                                    (unsigned_request "fork" "{}")))).
Proof.
  apply (@missing_signature_rejected loads_example no_container secret_k
           (unsigned_request "fork" "{}")).
  - vm_compute. discriminate.
  - reflexivity.
Defined.

(** A signed [fork] event with the body [{}]: the message is not empty, the
    admin id is ["1"], and the hand-off takes place. *)
Lemma admin_id_gates_delivery_witness :
  exists message,
    outcome (_process_event no_container (u "fork") (JDict [])) = Ok message
    /\ (forall m,
          In (Notify m)
             (trace (handle_webhook loads_example no_container secret_k
                                    (signed_request "fork" "{}")))
          <-> m = message /\ message <> [] /\ bot_admin_id secret_k <> [])
    /\ outcome (handle_webhook loads_example no_container secret_k
                               (signed_request "fork" "{}"))
       = Ok (jsonify "status" "success" 200).
Proof.
  apply (@admin_id_gates_delivery loads_example no_container secret_k
           (signed_request "fork" "{}") (u "{}") (JDict []));
    vm_compute; reflexivity.
Defined.

(** ** The comparison of the header *)

(** C6. The specification strips a leading ["sha256="] and compares the
    rest as it stands; the code removes every occurrence. On the header
    below, where the scheme stands in the middle of the right digest, the
    wording of the specification rejects and [_verify_signature] accepts. *)
Theorem embedded_scheme_accepted :
  let payload := ascii_bytes "hello" in
  str_encode (webhook_secret secret_k) = Ok (ascii_bytes "k")
  /\ hexdigest (hmac_sha256 (ascii_bytes "k") payload)
     = u "406e4b43f87095aa86ca6299d25e875921fefa180f02043bb29bec5681c0c2d0"
  /\ strip_leading (u "sha256=") embedded_scheme_header
     = embedded_scheme_header
  /\ compare_after_leading (ascii_bytes "k") payload embedded_scheme_header
     = Ok false
  /\ _verify_signature secret_k payload embedded_scheme_header
     = ([], Ok true).
Proof. vm_compute. repeat split. Qed.

(** On a header that is the scheme followed by text without an ['s'], the
    two agree: the difference is confined to headers with a further
    occurrence of the scheme. *)
Lemma leading_scheme_agrees (rest : str) :
  (forall c, In c rest -> c <> 115%N) ->
  str_replace (u "sha256=") [] (u "sha256=" ++ rest)
  = strip_leading (u "sha256=") (u "sha256=" ++ rest).
Proof.
  intros H. rewrite sha256_prefix_points. cbn.
  now apply replace_from_absent.
Qed.

(** ** Free text in the notifications *)

(** [escape_markdown] leaves a text without special characters as it is. *)
Lemma escape_loop_plain (text escaped : str) :
  forallb (fun c => negb (char_in c escape_chars)) text = true ->
  escape_loop text escaped = escaped ++ text.
Proof.
  revert escaped. induction text as [|c text IH]; intros escaped H.
  - now rewrite app_nil_r.
  - cbn [forallb] in H. apply andb_true_iff in H as [Hc Ht].
    cbn [escape_loop]. apply negb_true_iff in Hc. rewrite Hc.
    rewrite IH by assumption. now rewrite <- app_assoc.
Qed.

Lemma escape_markdown_plain (text : str) :
  forallb (fun c => negb (char_in c escape_chars)) text = true ->
  escape_markdown text = text.
Proof.
  intros H. unfold escape_markdown. destruct text as [|c text];
    [reflexivity|].
  cbn [str_truthy negb]. now rewrite escape_loop_plain.
Qed.

Example escape_markdown_star : escape_markdown (u "a*b") = u "a\*b".
Proof. reflexivity. Qed.

(** The title of a pull request enters the message as it is. *)
Lemma pull_request_title_verbatim (str_container : json -> str)
    (title : str) :
  outcome (_process_pull_request_event str_container
             (opened_pull_request title))
  = Ok (u "🟢 **Pull Request Opened**" ++ nl ++ nl
        ++ u "📦 Repository: Unknown" ++ nl
        ++ u "🔧 PR #7: " ++ title ++ nl
        ++ u "👤 Author: Unknown" ++ nl ++ nl
        ++ u "🔗 [View Pull Request]()").
Proof. reflexivity. Qed.

(** C2. The specification wants free text escaped by [escape_markdown]
    before it enters a message; the formatters of the webhook insert it as
    it is. For the title [a*b] the message holds [a*b] and not [a\*b]. *)
Theorem pull_request_title_not_escaped (str_container : json -> str) :
  exists message,
    outcome (_process_pull_request_event str_container
               (opened_pull_request (u "a*b")))
    = Ok message
    /\ escape_markdown (u "a*b") = u "a\*b"
    /\ contains (u "PR #7: a*b") message = true
    /\ contains (escape_markdown (u "a*b")) message = false.
Proof. eexists. vm_compute. repeat split. Qed.

(** ** The push formatter *)

Section Push.

Variable str_container : json -> str.

Lemma dict_get_dict (d : list (str * json)) (k : str) (default : json) :
  dict_get (JDict d) k default = Ok (get_or d k default).
Proof. reflexivity. Qed.

Lemma is_dict_inv (v : json) : is_dict v = true -> exists d, v = JDict d.
Proof. destruct v; try discriminate. eauto. Qed.

Lemma is_str_inv (v : json) : is_str v = true -> exists s, v = JStr s.
Proof. destruct v; try discriminate. eauto. Qed.

(** One turn of the loop on a commit of the expected structure. *)
Lemma commit_entry_text (commit : json) :
  commit_well_formed commit = true ->
  commit_entry str_container commit = Ok (commit_text str_container commit).
Proof.
  destruct commit as [| | | | |l|d]; try discriminate.
  unfold commit_well_formed. intros H.
  apply andb_true_iff in H as [Hauthor Hid].
  apply is_dict_inv in Hauthor as [a Ha].
  unfold commit_entry, commit_text, member.
  rewrite !dict_get_dict. cbn [rbind].
  rewrite Ha, dict_get_dict. cbn [rbind].
  destruct (get_or d (u "id") (JStr [])); try discriminate; reflexivity.
Qed.

(** On any other commit it raises. *)
Lemma commit_entry_raises (commit : json) :
  commit_well_formed commit = false ->
  exists e, commit_entry str_container commit = Raise e.
Proof.
  destruct commit as [| | | | |l|d]; try (eexists; reflexivity).
  unfold commit_well_formed. intros H.
  unfold commit_entry. rewrite !dict_get_dict. cbn [rbind].
  destruct (get_or d (u "author") (JDict [])) as [| | | | | |a];
    try (eexists; reflexivity).
  rewrite dict_get_dict. cbn [rbind].
  destruct (get_or d (u "id") (JStr [])); try discriminate;
    eexists; reflexivity.
Qed.

(** The loop appends the entry of each commit, in the order of the list. *)
Lemma for_commits_texts (commits : list json) (message : str) :
  forallb commit_well_formed commits = true ->
  for_commits str_container commits message
  = Ok (message ++ List.concat (map (commit_text str_container) commits)).
Proof.
  revert message. induction commits as [|c cs IH]; intros message H.
  - cbn. now rewrite app_nil_r.
  - cbn [forallb] in H. apply andb_true_iff in H as [Hc Hcs].
    cbn [for_commits]. rewrite (commit_entry_text _ Hc). cbn [rbind].
    rewrite IH by assumption. cbn [map List.concat]. now rewrite <- app_assoc.
Qed.

Lemma for_commits_raises (commits : list json) (message : str) :
  forallb commit_well_formed commits = false ->
  exists e, for_commits str_container commits message = Raise e.
Proof.
  revert message. induction commits as [|c cs IH]; intros message H;
    [discriminate|].
  cbn [forallb] in H. cbn [for_commits].
  destruct (commit_well_formed c) eqn:Hc.
  - rewrite (commit_entry_text _ Hc). cbn [rbind]. now apply IH.
  - destruct (commit_entry_raises _ Hc) as [e He]. rewrite He. now exists e.
Qed.

(** A push whose structure is another raises inside the [try]. *)
Lemma push_body_raises (fields : list (str * json)) (commits : list json) :
  assoc (u "commits") fields = Some (JList commits) ->
  commits <> [] ->
  push_renders fields commits = false ->
  exists e, push_body str_container (JDict fields) = Raise e.
Proof.
  intros Hcommits Hne Hwf.
  assert (Hget : get_or fields (u "commits") (JList []) = JList commits)
    by (unfold get_or; now rewrite Hcommits).
  unfold push_renders, push_well_formed in Hwf.
  unfold push_body. rewrite !dict_get_dict. cbn [rbind]. rewrite Hget.
  destruct (get_or fields (u "repository") (JDict [])) as [| | | | | |repo];
    try (eexists; reflexivity).
  rewrite !dict_get_dict. cbn [rbind].
  destruct (get_or fields (u "pusher") (JDict [])) as [| | | | | |pusher];
    try (eexists; reflexivity).
  rewrite !dict_get_dict. cbn [rbind].
  destruct (get_or fields (u "ref") (JStr [])) as [| | | |ref| |];
    try (eexists; reflexivity).
  cbn [branch_of rbind].
  destruct commits as [|c cs]; [contradiction|].
  cbn [truthy negb py_len slice_to py_iter rbind].
  cbn [is_dict is_str andb] in Hwf.
  match goal with
  | |- context [for_commits str_container ?l ?m] =>
    destruct (@for_commits_raises l m Hwf) as [e He]
  end.
  exists e. rewrite He. reflexivity.
Qed.

(** C5, as the code has it. For a push payload with a non-empty list of [n]
    commits: when the repository and the pusher are objects, the ref is a
    string and each of the first three commits is an object whose author is
    an object and whose id is a string or a list (each of them where
    present), the message is the header, then the entries of the first
    [min n 3] commits in the order of the payload, then the trailer
    ["... and n-3 more commits"] when [n > 3], then the link, and the header
    says ["commit"] when [n = 1] and ["commits"] otherwise; for any other
    such payload the error is logged and the message is empty. *)
Theorem push_commit_cap (fields : list (str * json)) (commits : list json) :
  assoc (u "commits") fields = Some (JList commits) ->
  commits <> [] ->
  let n := List.length commits in
  let total := Z.of_nat n in
  let repository := get_or fields (u "repository") (JDict []) in
  let pusher := get_or fields (u "pusher") (JDict []) in
  let ref := get_or fields (u "ref") (JStr []) in
  let shown := firstn 3 commits in
  List.length shown = Nat.min n 3
  /\ (push_renders fields commits = true ->
      _process_push_event str_container (JDict fields)
      = ([],
         Ok (u "📝 **New " ++ commit_word total ++ u " to "
             ++ py_str str_container
                  (member repository (u "full_name") (JStr (u "Unknown")))
             ++ u "**" ++ nl ++ nl
             ++ u "🌿 Branch: `" ++ message_of (branch_of ref) ++ u "`" ++ nl
             ++ u "👤 Pusher: "
             ++ py_str str_container
                  (member pusher (u "name") (JStr (u "Unknown")))
             ++ nl
             ++ u "📊 " ++ dec total ++ u " " ++ commit_word total
             ++ nl ++ nl
             ++ List.concat (map (commit_text str_container) shown)
             ++ more_commits total
             ++ u "🔗 [View Repository]("
             ++ py_str str_container
                  (member repository (u "html_url") (JStr []))
             ++ u ")")))
  /\ (push_renders fields commits = false ->
      exists e,
        _process_push_event str_container (JDict fields)
        = ([Log Error (u "Error processing push event") (Some e)], Ok [])).
Proof.
  intros Hcommits Hne n total repository pusher ref shown.
  split; [|split].
  - unfold shown, n. rewrite length_firstn. apply Nat.min_comm.
  - intros Hwf. unfold push_renders in Hwf.
    apply andb_true_iff in Hwf as [Hwf Hcs].
    unfold push_well_formed in Hwf.
    apply andb_true_iff in Hwf as [Hwf Href].
    apply andb_true_iff in Hwf as [Hrepo Hpusher].
    fold repository in Hrepo. fold pusher in Hpusher. fold ref in Href.
    apply is_dict_inv in Hrepo as [repo Hrepo].
    apply is_dict_inv in Hpusher as [pusher' Hpusher].
    apply is_str_inv in Href as [ref' Href].
    rewrite Hrepo, Hpusher, Href. cbn [member branch_of message_of].
    unfold _process_push_event, guarded, push_body.
    rewrite !dict_get_dict. cbn [rbind].
    fold repository pusher ref. rewrite Hrepo, Hpusher, Href.
    assert (Hget : get_or fields (u "commits") (JList []) = JList commits)
      by (unfold get_or; now rewrite Hcommits).
    rewrite Hget, !dict_get_dict. cbn [rbind branch_of].
    destruct commits as [|c cs]; [contradiction|].
    cbn [truthy negb py_len slice_to py_iter rbind].
    fold n total shown. rewrite for_commits_texts by exact Hcs.
    cbn [rbind].
    unfold commit_word, more_commits, lift, try_except.
    destruct (3 <? total)%Z; rewrite <- ?app_assoc, ?app_nil_l; reflexivity.
  - intros Hwf.
    destruct (@push_body_raises fields commits Hcommits Hne Hwf) as [e He].
    exists e. unfold _process_push_event, guarded. rewrite He. reflexivity.
Qed.

End Push.

(** A push of five commits: three entries, then the trailer for the other
    two. *)
Lemma push_commit_cap_witness :
  _process_push_event no_container (JDict (push_of 5))
  = ([],
     Ok (u "📝 **New commits to Unknown**" ++ nl ++ nl
         ++ u "🌿 Branch: `main`" ++ nl
         ++ u "👤 Pusher: Unknown" ++ nl
         ++ u "📊 5 commits" ++ nl ++ nl
         ++ u "🔸 **No message**" ++ nl
         ++ u "👤 Unknown • `0123456`" ++ nl ++ nl
         ++ u "🔸 **No message**" ++ nl
         ++ u "👤 Unknown • `0123456`" ++ nl ++ nl
         ++ u "🔸 **No message**" ++ nl
         ++ u "👤 Unknown • `0123456`" ++ nl ++ nl
         ++ u "... and 2 more commits" ++ nl ++ nl
         ++ u "🔗 [View Repository]()")).
Proof.
  pose proof (@push_commit_cap no_container (push_of 5)
                (repeat (JDict [(u "id", JStr (u "0123456789abcdef"))]) 5)
                eq_refl) as H.
  cbv zeta in H.
  assert (Hne : repeat (JDict [(u "id", JStr (u "0123456789abcdef"))]) 5
                <> []) by discriminate.
  destruct (H Hne) as (_ & Hok & _).
  rewrite (Hok eq_refl). reflexivity.
Defined.

(** C5 as stated fails where the extraction raises: a push of one commit
    that is a number, a push whose repository is a string, a push whose ref
    is a number and a push whose commit id is a number each have one commit
    and an empty message, so no entry at all. *)
Lemma malformed_push_no_entry :
  let commit := JDict [(u "message", JStr (u "fix"))] in
  outcome (_process_push_event no_container
             (JDict (push_with [] (JInt 1))))
  = Ok []
  /\ outcome (_process_push_event no_container
                (JDict (push_with [(u "repository", JStr (u "r"))] commit)))
     = Ok []
  /\ outcome (_process_push_event no_container
                (JDict (push_with [(u "ref", JInt 1)] commit)))
     = Ok []
  /\ outcome (_process_push_event no_container
                (JDict (push_with [] (JDict [(u "id", JInt 7)]))))
     = Ok []
  /\ exists message,
       outcome (_process_push_event no_container
                  (JDict (push_with [] commit)))
       = Ok message
       /\ contains (u "🔸 **fix**") message = true.
Proof.
  cbv zeta. repeat split. eexists. split; reflexivity.
Qed.

(** ** Absent fields *)

Section Defaults.

Variable str_container : json -> str.

Lemma get_or_cons (d : list (str * json)) (k k' : str) (x default : json) :
  get_or ((k', x) :: d) k default
  = if str_eqb k k' then x else get_or d k default.
Proof. unfold get_or. cbn [assoc]. now destruct (str_eqb k k'). Qed.

Lemma get_or_some (d : list (str * json)) (k : str) (x default : json) :
  assoc k d = Some x -> get_or d k default = x.
Proof. unfold get_or. now intros ->. Qed.

Lemma get_or_none (d : list (str * json)) (k : str) (default : json) :
  assoc k d = None -> get_or d k default = default.
Proof. unfold get_or. now intros ->. Qed.

Ltac use_lookups :=
  repeat match goal with
         | E : assoc ?k ?d = Some ?x |- context [get_or ?d ?k ?default] =>
           rewrite (@get_or_some d k x default E)
         | E : assoc ?k ?d = None |- context [get_or ?d ?k ?default] =>
           rewrite (@get_or_none d k default E)
         end.

(** Both sides are unfolded, and the lookups of the side with the field
    supplied are brought back to those of the side without it. *)
Ltac supplied H :=
  cbv [supply_at supply]; crack H;
  unfold event_body; eval_keys;
  unfold push_body, pull_request_body, issues_body, star_body, fork_body,
    release_body, unknown, empty_object, empty_text;
  repeat (rewrite ?dict_get_dict; cbn [rbind];
          rewrite ?get_or_cons; eval_keys; use_lookups);
  reflexivity.

Lemma supplied_default (event_type : str) (path : list str)
    (default data : json) :
  In (event_type, path, default) field_defaults ->
  lacks_at path data = true ->
  event_body str_container event_type data
  = event_body str_container event_type (supply_at path default data).
Proof.
  intros Hin H. unfold field_defaults in Hin. cbn [In] in Hin.
  repeat (destruct Hin as [Hin|Hin]; [injection Hin as <- <- <-|]);
    try contradiction; supplied H.
Qed.

Lemma supplied_commit_default (path : list str) (default commit : json) :
  In (path, default) commit_defaults ->
  lacks_at path commit = true ->
  commit_entry str_container commit
  = commit_entry str_container (supply_at path default commit).
Proof.
  intros Hin H. unfold commit_defaults in Hin. cbn [In] in Hin.
  repeat (destruct Hin as [Hin|Hin]; [injection Hin as <- <-|]);
    try contradiction;
    cbv [supply_at supply]; crack H;
    unfold commit_entry, unknown, empty_object, empty_text;
    repeat (rewrite ?dict_get_dict; cbn [rbind];
            rewrite ?get_or_cons; eval_keys; use_lookups);
    reflexivity.
Qed.

Lemma supplied_release_name (data : json) :
  lacks_at [u "release"; u "name"] data = true ->
  release_body str_container data
  = release_body str_container
      (supply_at [u "release"; u "name"] (release_tag data) data).
Proof.
  intros H. cbv [supply_at supply]; crack H.
  unfold release_body, release_tag, unknown, empty_object.
  repeat (rewrite ?dict_get_dict; cbn [rbind];
          rewrite ?get_or_cons; eval_keys; use_lookups).
  reflexivity.
Qed.


End Defaults.



(** * Further properties *)

(** ** utils.escape_markdown *)

Lemma escape_loop_acc (text escaped : str) :
  escape_loop text escaped = escaped ++ flat_map escape_char text.
Proof.
  revert escaped. induction text as [|c text IH]; intros escaped.
  - cbn. now rewrite app_nil_r.
  - cbn [escape_loop flat_map]. unfold escape_char at 1.
    destruct (char_in c escape_chars); rewrite IH, <- app_assoc; reflexivity.
Qed.

Lemma escape_markdown_flat (text : str) :
  escape_markdown text = flat_map escape_char text.
Proof.
  unfold escape_markdown. destruct text as [|c text]; [reflexivity|].
  cbn [str_truthy negb]. now rewrite escape_loop_acc.
Qed.

(** X1. Escaping distributes over concatenation: a message can be escaped
    piece by piece. *)
Theorem escape_markdown_app (a b : str) :
  escape_markdown (a ++ b) = escape_markdown a ++ escape_markdown b.
Proof. rewrite !escape_markdown_flat. apply flat_map_app. Qed.

Lemma backslash_plain : char_in backslash escape_chars = false.
Proof. reflexivity. Qed.

Lemma unescape_escape_cons (c : char) (rest : str) :
  (forall d rest', rest = d :: rest' ->
                   char_eqb c backslash && char_in d escape_chars = false) ->
  unescape (escape_char c ++ rest) = c :: unescape rest.
Proof.
  intros Hnext. unfold escape_char.
  destruct (char_in c escape_chars) eqn:Hc.
  - cbn [app unescape]. unfold char_eqb at 1. rewrite N.eqb_refl, Hc.
    reflexivity.
  - cbn [app unescape]. destruct rest as [|d rest']; [reflexivity|].
    now rewrite (Hnext d rest' eq_refl).
Qed.

(** An escaped text never starts with a special character. *)
Lemma escaped_head (text : str) (d : char) (rest : str) :
  flat_map escape_char text = d :: rest ->
  char_in d escape_chars = false.
Proof.
  destruct text as [|c text]; [discriminate|].
  cbn [flat_map]. unfold escape_char.
  destruct (char_in c escape_chars) eqn:Hc; cbn [app]; intros H;
    injection H as <- _; [apply backslash_plain | exact Hc].
Qed.

(** X2. Escaping loses nothing: dropping the backslash before each special
    character gives the text back, so that two texts with the same escaped
    form are the same text. *)
Theorem escape_markdown_round_trip (text : str) :
  unescape (escape_markdown text) = text
  /\ (forall text', escape_markdown text = escape_markdown text' ->
                    text = text').
Proof.
  assert (H : forall t, unescape (escape_markdown t) = t).
  { intros t. rewrite escape_markdown_flat.
    induction t as [|c t IH]; [reflexivity|].
    cbn [flat_map]. rewrite unescape_escape_cons, IH; [reflexivity|].
    intros d rest' Hd. apply escaped_head in Hd. rewrite Hd.
    apply andb_false_r. }
  split; [apply H|].
  intros text' E. rewrite <- (H text), <- (H text'). now rewrite E.
Qed.

(** X3. In an escaped text every special character stands right after a
    backslash. *)
Theorem escape_markdown_guards (text pre post : str) (c : char) :
  escape_markdown text = pre ++ c :: post ->
  char_in c escape_chars = true ->
  exists pre', pre = pre' ++ [backslash].
Proof.
  rewrite escape_markdown_flat. revert pre.
  induction text as [|x text IH]; intros pre H Hc.
  - destruct pre; discriminate.
  - cbn [flat_map] in H. unfold escape_char in H.
    destruct (char_in x escape_chars) eqn:Hx; cbn [app] in H.
    + destruct pre as [|p pre]; cbn [app] in H.
      * injection H as <- _. rewrite backslash_plain in Hc. discriminate.
      * injection H as <- H. destruct pre as [|q pre]; cbn [app] in H.
        -- now exists [].
        -- injection H as <- H. destruct (IH pre H Hc) as [pre' ->].
           now exists (backslash :: x :: pre').
    + destruct pre as [|p pre]; cbn [app] in H.
      * injection H as <- _. congruence.
      * injection H as <- H. destruct (IH pre H Hc) as [pre' ->].
        now exists (x :: pre').
Qed.

(** In the escaped form of [a*b] the star stands after a backslash. *)
Lemma escape_markdown_guards_witness :
  exists pre', u "a\" = pre' ++ [backslash].
Proof.
  apply (@escape_markdown_guards (u "a*b") (u "a\") (u "b") 42%N);
    reflexivity.
Defined.

Lemma escape_markdown_length (text : str) :
  List.length (escape_markdown text)
  = List.length text + special_count text.
Proof.
  rewrite escape_markdown_flat. unfold special_count.
  induction text as [|c text IH]; [reflexivity|].
  cbn [flat_map filter]. rewrite length_app, IH. unfold escape_char.
  destruct (char_in c escape_chars); cbn [List.length]; lia.
Qed.

(** X4. The escaped text has one more character per special character of
    the text, and it is the text itself exactly when the text has none. *)
Theorem escape_markdown_fixed (text : str) :
  List.length (escape_markdown text)
  = List.length text + special_count text
  /\ (escape_markdown text = text <-> special_count text = 0).
Proof.
  split; [apply escape_markdown_length|]. split.
  - intros H. pose proof (escape_markdown_length text) as L.
    rewrite H in L. lia.
  - intros H. apply escape_markdown_plain.
    unfold special_count in H. apply length_zero_iff_nil in H.
    apply forallb_forall. intros c Hc.
    destruct (char_in c escape_chars) eqn:E; [|reflexivity].
    assert (Hin : In c (filter (fun c => char_in c escape_chars) text))
      by (apply filter_In; auto).
    rewrite H in Hin. destruct Hin.
Qed.

(** ** utils.truncate_text *)

Lemma dots_length : List.length (u "...") = 3.
Proof. reflexivity. Qed.

Lemma truncate_text_short (text : str) (max_length : Z) :
  (Z.of_nat (List.length text) <= max_length)%Z ->
  truncate_text text max_length = text.
Proof.
  intros H. unfold truncate_text. destruct text; [reflexivity|].
  cbn [str_truthy negb]. now apply Z.leb_le in H as ->.
Qed.

Lemma truncate_text_long (text : str) (max_length : Z) :
  (3 <= max_length < Z.of_nat (List.length text))%Z ->
  truncate_text text max_length
  = firstn (Z.to_nat (max_length - 3)) text ++ u "...".
Proof.
  intros H. unfold truncate_text, slice_stop.
  destruct text as [|c text]; [cbn in H; lia|]. cbn [str_truthy negb].
  destruct (Z.leb_spec (Z.of_nat (List.length (c :: text))) max_length);
    [lia|].
  destruct (Z.ltb_spec (max_length - 3) 0); [lia | reflexivity].
Qed.

(** X5. With a limit of at least 3, the result never exceeds the limit: a
    text within the limit is returned as it is, a longer one is cut to its
    first [max_length - 3] characters followed by three dots. *)
Theorem truncate_text_bound (text : str) (max_length : Z) :
  (3 <= max_length)%Z ->
  (Z.of_nat (List.length (truncate_text text max_length)) <= max_length)%Z
  /\ ((Z.of_nat (List.length text) <= max_length)%Z ->
      truncate_text text max_length = text)
  /\ ((max_length < Z.of_nat (List.length text))%Z ->
      truncate_text text max_length
      = firstn (Z.to_nat (max_length - 3)) text ++ u "...").
Proof.
  intros Hmax. split; [|split].
  - destruct (Z.le_gt_cases (Z.of_nat (List.length text)) max_length)
      as [Hle|Hgt].
    + now rewrite truncate_text_short.
    + rewrite truncate_text_long by lia.
      rewrite length_app, dots_length, length_firstn. lia.
  - apply truncate_text_short.
  - intros Hgt. apply truncate_text_long. lia.
Qed.

(** Eight characters within a limit of five. *)
Lemma truncate_text_bound_witness :
  (Z.of_nat (List.length (truncate_text (u "abcdefgh") 5)) <= 5)%Z
  /\ truncate_text (u "abcdefgh") 5 = u "ab...".
Proof.
  destruct (@truncate_text_bound (u "abcdefgh") 5) as (Hlen & _ & Hcut);
    [lia|].
  split; [exact Hlen|]. rewrite Hcut; [reflexivity | vm_compute; reflexivity].
Defined.

(** X6. With a limit of at least 3, truncating twice is truncating once. *)
Theorem truncate_text_idempotent (text : str) (max_length : Z) :
  (3 <= max_length)%Z ->
  truncate_text (truncate_text text max_length) max_length
  = truncate_text text max_length.
Proof.
  intros Hmax. apply truncate_text_short.
  destruct (Z.le_gt_cases (Z.of_nat (List.length text)) max_length)
    as [Hle|Hgt].
  - now rewrite truncate_text_short.
  - rewrite truncate_text_long by lia.
    rewrite length_app, dots_length, length_firstn. lia.
Qed.

Lemma truncate_text_idempotent_witness :
  truncate_text (truncate_text (u "abcdefgh") 5) 5
  = truncate_text (u "abcdefgh") 5.
Proof. apply truncate_text_idempotent. lia. Defined.

(** X7. With a limit below 3, a text longer than the limit is not brought
    within it: the result keeps all but [3 - max_length] characters of the
    text and adds the three dots. *)
Theorem truncate_text_small_limit (text : str) (max_length : Z) :
  (max_length < 3)%Z ->
  (max_length < Z.of_nat (List.length text))%Z ->
  text <> [] ->
  truncate_text text max_length
  = firstn (Z.to_nat (Z.of_nat (List.length text) + max_length - 3)) text
    ++ u "..."
  /\ (max_length
      < Z.of_nat (List.length (truncate_text text max_length)))%Z.
Proof.
  intros Hmax Hlen Hne. unfold truncate_text, slice_stop.
  destruct text as [|c text]; [contradiction|]. cbn [str_truthy negb].
  destruct (Z.leb_spec (Z.of_nat (List.length (c :: text))) max_length);
    [lia|].
  destruct (Z.ltb_spec (max_length - 3) 0); [|lia].
  replace (Z.of_nat (List.length (c :: text)) + (max_length - 3))%Z
    with (Z.of_nat (List.length (c :: text)) + max_length - 3)%Z by lia.
  split; [reflexivity|].
  rewrite length_app, dots_length, length_firstn. lia.
Qed.

(** Six characters and a limit of two: eight characters come back. *)
Lemma truncate_text_small_limit_witness :
  truncate_text (u "abcdef") 2 = u "abcde..."
  /\ (2 < Z.of_nat (List.length (truncate_text (u "abcdef") 2)))%Z.
Proof.
  destruct (@truncate_text_small_limit (u "abcdef") 2) as (Hcut & Hlen);
    try (vm_compute; congruence).
  split; [rewrite Hcut; reflexivity | exact Hlen].
Defined.

(** ** utils.parse_webhook_signature *)

Lemma after_first_app (c : char) (algo rest : str) :
  ~ In c algo -> after_first c (algo ++ c :: rest) = Some rest.
Proof.
  induction algo as [|x algo IH]; intros Hc; cbn [app after_first].
  - unfold char_eqb. now rewrite N.eqb_refl.
  - assert (E : char_eqb x c = false).
    { apply N.eqb_neq. intros ->. apply Hc. now left. }
    rewrite E. apply IH. intros H. apply Hc. now right.
Qed.

(** X8. The parser returns what follows the first equals sign; on the header
    GitHub sends it returns the hexadecimal digest, whatever the digest. *)
Theorem parse_webhook_signature_round_trip (key payload : bytes)
    (algo rest : str) :
  parse_webhook_signature (github_signature key payload)
  = hexdigest (hmac_sha256 key payload)
  /\ (~ In equals_sign algo ->
      parse_webhook_signature (algo ++ equals_sign :: rest) = rest).
Proof.
  assert (H : forall a r, ~ In equals_sign a ->
                          parse_webhook_signature (a ++ equals_sign :: r) = r).
  { intros a r Ha. unfold parse_webhook_signature.
    rewrite after_first_app by assumption.
    destruct a; reflexivity. }
  split; [|apply H].
  unfold github_signature.
  change (u "sha256=") with (u "sha256" ++ [equals_sign]).
  rewrite <- app_assoc. apply H. vm_compute. intuition discriminate.
Qed.

(** ** utils.chunk_list *)

Section Chunks.

Variable A : Type.
Variable lst : list A.
Variable k : nat.
Hypothesis k_positive : 0 < k.

Local Abbreviation n := (List.length lst).
Local Abbreviation chunk := (fun i => slice i (i + k) lst).

Lemma chunk_firstn (i : nat) :
  slice i (i + k) lst = firstn k (skipn i lst).
Proof. unfold slice. f_equal. lia. Qed.

Lemma range_chunks_concat (fuel start : nat) :
  n - start <= fuel ->
  List.concat (map chunk (range_from fuel start n k)) = skipn start lst.
Proof.
  revert start. induction fuel as [|fuel IH]; intros start Hfuel.
  - cbn. symmetry. apply skipn_all2. lia.
  - cbn [range_from]. destruct (Nat.ltb_spec start n) as [Hlt|Hge].
    + cbn [map List.concat]. rewrite IH by lia.
      cbn beta. rewrite chunk_firstn, Nat.add_comm, <- skipn_skipn.
      apply firstn_skipn.
    + cbn. symmetry. apply skipn_all2. lia.
Qed.

Lemma range_below (fuel start i : nat) :
  In i (range_from fuel start n k) -> i < n.
Proof.
  revert start. induction fuel as [|fuel IH]; intros start; cbn [range_from].
  - intros [].
  - destruct (Nat.ltb_spec start n) as [Hlt|Hge]; [|intros []].
    intros [<-|H]; [assumption | now apply (IH (start + k))].
Qed.

Lemma chunk_length (i : nat) :
  i < n -> List.length (slice i (i + k) lst) = Nat.min k (n - i).
Proof.
  intros _. rewrite chunk_firstn, length_firstn, length_skipn. reflexivity.
Qed.

Lemma range_chunks_full (fuel start : nat) (pre post : list (list A))
    (c : list A) :
  map chunk (range_from fuel start n k) = pre ++ c :: post ->
  post <> [] ->
  List.length c = k.
Proof.
  revert start pre. induction fuel as [|fuel IH]; intros start pre;
    cbn [range_from].
  - destruct pre; discriminate.
  - destruct (Nat.ltb_spec start n) as [Hlt|Hge];
      [|destruct pre; discriminate].
    cbn [map]. destruct pre as [|p pre]; cbn [app]; intros H Hpost.
    + injection H as <- Hrest.
      destruct fuel as [|fuel']; cbn [range_from] in Hrest;
        [now subst post|].
      destruct (Nat.ltb_spec (start + k) n) as [Hnext|Hlast];
        [|now subst post].
      cbn beta. rewrite chunk_length by assumption. lia.
    + injection H as _ H. now apply (IH (start + k) pre).
Qed.

Lemma range_count (fuel start : nat) :
  n - start <= fuel ->
  List.length (range_from fuel start n k) = (n - start + (k - 1)) / k.
Proof.
  revert start. induction fuel as [|fuel IH]; intros start Hfuel.
  - cbn. replace (n - start) with 0 by lia. cbn [Nat.add].
    symmetry. apply Nat.div_small. lia.
  - cbn [range_from]. destruct (Nat.ltb_spec start n) as [Hlt|Hge].
    + cbn [List.length]. rewrite IH by lia.
      destruct (Nat.le_gt_cases k (n - start)) as [Hbig|Hsmall].
      * replace (n - start + (k - 1))
          with ((n - (start + k) + (k - 1)) + 1 * k) by lia.
        rewrite Nat.div_add by lia. lia.
      * replace (n - (start + k)) with 0 by lia. cbn [Nat.add].
        rewrite (Nat.div_small (k - 1) k) by lia.
        apply (Nat.div_unique _ _ 1 (n - start - 1)); lia.
    + cbn. replace (n - start) with 0 by lia. cbn [Nat.add].
      symmetry. apply Nat.div_small. lia.
Qed.

End Chunks.

(** X9. With a positive size, the chunks put end to end are the list; there
    are [ceil(len / size)] of them, none is empty or longer than the size,
    and each one before the last has exactly the size. *)
Theorem chunk_list_partition (A : Type) (lst : list A) (chunk_size : Z) :
  (0 < chunk_size)%Z ->
  exists chunks,
    chunk_list lst chunk_size = inl chunks
    /\ List.concat chunks = lst
    /\ List.length chunks
       = (List.length lst + (Z.to_nat chunk_size - 1)) / Z.to_nat chunk_size
    /\ (forall c, In c chunks ->
                  0 < List.length c <= Z.to_nat chunk_size)
    /\ (forall pre c post,
          chunks = pre ++ c :: post -> post <> [] ->
          List.length c = Z.to_nat chunk_size).
Proof.
  intros Hsize. unfold chunk_list, py_range.
  destruct (Z.eqb_spec chunk_size 0) as [|_]; [lia|].
  destruct (Z.ltb_spec chunk_size 0) as [|_]; [lia|].
  set (k := Z.to_nat chunk_size). assert (Hk : 0 < k) by lia.
  eexists. split; [reflexivity|]. split; [|split; [|split]].
  - rewrite range_chunks_concat by lia. reflexivity.
  - rewrite length_map, range_count by lia.
    now rewrite Nat.sub_0_r.
  - intros c Hc. apply in_map_iff in Hc as (i & <- & Hi).
    apply range_below in Hi. cbn beta.
    rewrite chunk_length by assumption. lia.
  - intros pre c post. apply range_chunks_full. assumption.
Qed.

(** Seven elements in chunks of three. *)
Lemma chunk_list_partition_witness :
  exists chunks,
    chunk_list [1; 2; 3; 4; 5; 6; 7] 3 = inl chunks
    /\ List.concat chunks = [1; 2; 3; 4; 5; 6; 7]
    /\ List.length chunks = (7 + (3 - 1)) / 3
    /\ (forall c, In c chunks -> 0 < List.length c <= 3)
    /\ (forall pre c post,
          chunks = pre ++ c :: post -> post <> [] -> List.length c = 3).
Proof.
  exact (@chunk_list_partition nat [1; 2; 3; 4; 5; 6; 7] 3 eq_refl).
Defined.

(** X10. A size of zero is refused with [ValueError]; a negative size gives
    no chunk at all, whatever the list, and its elements are lost. *)
Theorem chunk_list_degenerate (A : Type) (lst : list A) (chunk_size : Z) :
  (chunk_size = 0%Z -> chunk_list lst chunk_size = inr ValueError)
  /\ ((chunk_size < 0)%Z -> chunk_list lst chunk_size = inl []).
Proof.
  unfold chunk_list, py_range. split.
  - intros ->. reflexivity.
  - intros H. destruct (Z.eqb_spec chunk_size 0); [lia|].
    destruct (Z.ltb_spec chunk_size 0); [reflexivity | lia].
Qed.

(** ** utils.sanitize_filename *)

Lemma lstrip_sub (chars s : str) (c : char) :
  In c (lstrip chars s) -> In c s.
Proof.
  induction s as [|x s IH]; cbn [lstrip]; [tauto|].
  destruct (char_in x chars); [|tauto]. intros H. right. now apply IH.
Qed.

Lemma lstrip_head (chars s rest : str) (c : char) :
  lstrip chars s = c :: rest -> char_in c chars = false.
Proof.
  induction s as [|x s IH]; cbn [lstrip]; [discriminate|].
  destruct (char_in x chars) eqn:E; [exact IH|].
  intros H. injection H as <- _. exact E.
Qed.

Lemma lstrip_kept (chars s : str) (c : char) :
  char_in c chars = false -> lstrip chars (c :: s) = c :: s.
Proof. intros H. cbn [lstrip]. now rewrite H. Qed.

Lemma lstrip_snoc (chars s : str) (c : char) :
  char_in c chars = false ->
  lstrip chars (s ++ [c]) = lstrip chars s ++ [c].
Proof.
  intros H. induction s as [|x s IH]; cbn [app lstrip].
  - now rewrite H.
  - destruct (char_in x chars); [exact IH | reflexivity].
Qed.

Lemma rstrip_cons (chars s : str) (c : char) :
  char_in c chars = false -> rstrip chars (c :: s) = c :: rstrip chars s.
Proof.
  intros H. unfold rstrip. cbn [rev].
  rewrite lstrip_snoc by assumption. rewrite rev_app_distr. reflexivity.
Qed.

Lemma rstrip_sub (chars s : str) (c : char) :
  In c (rstrip chars s) -> In c s.
Proof.
  unfold rstrip. rewrite <- in_rev. intros H.
  apply lstrip_sub in H. now apply in_rev.
Qed.

Lemma rstrip_last (chars s rest : str) (c : char) :
  rstrip chars s = rest ++ [c] -> char_in c chars = false.
Proof.
  unfold rstrip. intros H.
  apply (f_equal (@rev char)) in H.
  rewrite rev_involutive, rev_app_distr in H. cbn [rev app] in H.
  now apply lstrip_head in H.
Qed.

Lemma rstrip_kept (chars s : str) (c : char) :
  char_in c chars = false -> rstrip chars (s ++ [c]) = s ++ [c].
Proof.
  intros H. unfold rstrip. rewrite rev_app_distr. cbn [rev app].
  rewrite lstrip_kept by assumption.
  change (c :: rev s) with ([c] ++ rev s).
  rewrite rev_app_distr, rev_involutive. reflexivity.
Qed.

Lemma strip_trimmed (chars s : str) : trimmed chars (strip chars s).
Proof.
  unfold strip. split.
  - intros c rest H.
    destruct (lstrip chars s) as [|x t] eqn:E.
    + unfold rstrip in H. cbn in H. discriminate.
    + pose proof (lstrip_head _ _ E) as Hx.
      rewrite rstrip_cons in H by assumption.
      injection H as <- _. exact Hx.
  - intros c rest H. now apply rstrip_last in H.
Qed.

Lemma strip_of_trimmed (chars s : str) :
  trimmed chars s -> strip chars s = s.
Proof.
  intros [Hhead Hlast]. unfold strip.
  destruct s as [|c s]; [reflexivity|].
  rewrite lstrip_kept by (eapply Hhead; reflexivity).
  destruct (@exists_last _ (c :: s)) as (rest & z & E); [discriminate|].
  rewrite E. apply rstrip_kept. eapply Hlast. exact E.
Qed.

Lemma strip_sub (chars s : str) (c : char) :
  In c (strip chars s) -> In c s.
Proof.
  unfold strip. intros H. apply rstrip_sub in H. now apply lstrip_sub in H.
Qed.

Lemma sanitized_clean (filename : str) :
  filename_clean (sanitize_filename filename).
Proof.
  unfold sanitize_filename.
  set (kept := filter _ filename). set (mapped := map _ kept).
  assert (Hmapped : forall c, In c mapped ->
            char_in c filename_invalid = false /\ c <> space).
  { intros c Hc. apply in_map_iff in Hc as (x & Hx & Hin).
    apply filter_In in Hin as [_ Hkeep]. apply negb_true_iff in Hkeep.
    destruct (char_eqb x space) eqn:E; subst c.
    - split; [reflexivity | discriminate].
    - split; [exact Hkeep|]. intros ->. unfold char_eqb in E.
      now rewrite N.eqb_refl in E. }
  destruct (strip [dot; space] mapped) as [|c s] eqn:E; cbn [str_truthy].
  - split; [|split].
    + vm_compute. discriminate.
    + intros c. vm_compute. intuition (subst; try discriminate; auto).
    + split; intros c rest H.
      * vm_compute in H. injection H as <- _. reflexivity.
      * apply (f_equal (@rev char)) in H. rewrite rev_app_distr in H.
        vm_compute in H. injection H as <- _. reflexivity.
  - rewrite <- E. split; [|split].
    + rewrite E. discriminate.
    + intros x Hx. apply Hmapped. now apply strip_sub in Hx.
    + apply strip_trimmed.
Qed.

(** X11. The sanitized name is never empty, holds none of the characters of
    the pattern and no space, and neither begins nor ends with a dot. *)
Theorem sanitize_filename_clean (filename : str) :
  sanitize_filename filename <> []
  /\ (forall c, In c (sanitize_filename filename) ->
                char_in c filename_invalid = false /\ c <> space)
  /\ (forall c rest, sanitize_filename filename = c :: rest -> c <> dot)
  /\ (forall c rest, sanitize_filename filename = rest ++ [c] -> c <> dot).
Proof.
  destruct (sanitized_clean filename) as (Hne & Hchars & Hhead & Hlast).
  split; [exact Hne|]. split; [exact Hchars|]. split.
  - intros c rest E ->. apply Hhead in E. discriminate.
  - intros c rest E ->. apply Hlast in E. discriminate.
Qed.


(** X12. Sanitizing a sanitized name changes nothing. *)
Theorem sanitize_filename_idempotent (filename : str) :
  sanitize_filename (sanitize_filename filename)
  = sanitize_filename filename.
Proof.
  destruct (sanitized_clean filename) as (Hne & Hchars & Htrim).
  set (s := sanitize_filename filename) in *.
  unfold sanitize_filename at 1.
  assert (Hfilter : filter (fun c => negb (char_in c filename_invalid)) s = s).
  { apply forallb_filter_id. apply forallb_forall. intros c Hc.
    apply negb_true_iff. now apply Hchars. }
  rewrite Hfilter.
  assert (Hmap : map (fun c => if char_eqb c space then underscore else c) s
                 = s).
  { rewrite <- (map_id s) at 2. apply map_ext_in. intros c Hc.
    destruct (N.eqb_spec c space) as [->|Hn].
    - now destruct (proj2 (Hchars space Hc)).
    - unfold char_eqb. now apply N.eqb_neq in Hn as ->. }
  rewrite Hmap, strip_of_trimmed by assumption.
  destruct s; [contradiction | reflexivity].
Qed.

(** ** utils.is_valid_repo_path *)

Lemma split_on_nonempty (c : char) (s : str) : split_on c s <> [].
Proof.
  induction s as [|x s IH]; cbn [split_on]; [discriminate|].
  destruct (char_eqb x c); [discriminate|].
  destruct (split_on c s); [contradiction | discriminate].
Qed.

Lemma split_on_single (c : char) (s piece : str) :
  split_on c s = [piece] <-> s = piece /\ char_in c s = false.
Proof.
  revert piece. induction s as [|x s IH]; intros piece; cbn [split_on].
  - split; [intros H; injection H as <-; now split|].
    now intros [<- _].
  - unfold char_in. cbn [existsb]. fold (char_in c s).
    destruct (N.eqb_spec x c) as [->|Hn].
    + unfold char_eqb. rewrite N.eqb_refl. cbn [orb]. split.
      * intros H. injection H as _ H. now apply split_on_nonempty in H.
      * intros [_ H]. discriminate.
    + unfold char_eqb. rewrite (proj2 (N.eqb_neq x c) Hn).
      rewrite (proj2 (N.eqb_neq c x)) by congruence. cbn [orb].
      destruct (split_on c s) as [|p ps] eqn:E;
        [now apply split_on_nonempty in E|].
      split.
      * intros H. injection H as <- ->.
        destruct (proj1 (IH p) eq_refl) as [-> Hc]. now split.
      * intros [<- Hc].
        pose proof (proj2 (IH s) (conj eq_refl Hc)) as H.
        injection H as -> ->. reflexivity.
Qed.

Lemma split_on_pair (c : char) (s a b : str) :
  split_on c s = [a; b]
  <-> s = a ++ c :: b /\ char_in c a = false /\ char_in c b = false.
Proof.
  revert a. induction s as [|x s IH]; intros a; cbn [split_on].
  - split; [discriminate|]. intros [H _]. destruct a; discriminate.
  - destruct (N.eqb_spec x c) as [->|Hn].
    + unfold char_eqb. rewrite N.eqb_refl. split.
      * intros H. injection H as <- H. apply split_on_single in H as [-> Hb].
        now repeat split.
      * intros (H & Ha & Hb). destruct a as [|y a]; cbn [app] in H.
        -- injection H as ->. f_equal. now apply split_on_single.
        -- injection H as <- _. unfold char_in in Ha. cbn [existsb] in Ha.
           unfold char_eqb in Ha. rewrite N.eqb_refl in Ha. discriminate.
    + unfold char_eqb. rewrite (proj2 (N.eqb_neq x c) Hn).
      destruct (split_on c s) as [|p ps] eqn:E;
        [now apply split_on_nonempty in E|].
      split.
      * intros H. injection H as <- ->.
        destruct (proj1 (IH p) eq_refl) as (-> & Hp & Hb).
        repeat split; auto. unfold char_in. cbn [existsb]. fold (char_in c p).
        unfold char_eqb. rewrite (proj2 (N.eqb_neq c x)) by congruence.
        exact Hp.
      * intros (H & Ha & Hb). destruct a as [|y a]; cbn [app] in H.
        -- injection H as -> _. contradiction.
        -- injection H as <- ->. unfold char_in in Ha. cbn [existsb] in Ha.
           fold (char_in c a) in Ha. apply orb_false_iff in Ha as [_ Ha].
           pose proof (proj2 (IH a) (conj eq_refl (conj Ha Hb))) as H.
           injection H as -> ->. reflexivity.
Qed.

Section RepoPath.

Variable re_space : char -> bool.

Lemma slash_invalid (s : str) :
  has_invalid_char re_space s = false -> char_in slash s = false.
Proof.
  unfold has_invalid_char, char_in. induction s as [|x s IH]; [reflexivity|].
  cbn [existsb]. intros H. apply orb_false_iff in H as [Hx Hs].
  apply orb_false_iff in Hx as [Hx _]. rewrite (IH Hs), orb_false_r.
  unfold char_eqb at 1. destruct (N.eqb_spec slash x) as [<-|]; [|reflexivity].
  vm_compute in Hx. discriminate.
Qed.

Lemma valid_repo_path_parts (repo_path : str) :
  is_valid_repo_path re_space repo_path = true ->
  exists owner repo,
    repo_path = owner ++ slash :: repo
    /\ owner <> [] /\ repo <> []
    /\ has_invalid_char re_space owner = false
    /\ has_invalid_char re_space repo = false.
Proof.
  unfold is_valid_repo_path.
  destruct (negb (str_truthy repo_path) || negb (char_in slash repo_path));
    [discriminate|].
  destruct (split_on slash repo_path) as [|owner [|repo [|x l]]] eqn:E;
    try discriminate.
  apply split_on_pair in E as (-> & _ & _).
  destruct owner as [|o owner]; [discriminate|].
  destruct repo as [|r repo]; [discriminate|]. cbn [str_truthy negb orb].
  destruct (has_invalid_char re_space (o :: owner)) eqn:Ho;
    [discriminate|].
  destruct (has_invalid_char re_space (r :: repo)) eqn:Hr;
    [discriminate|].
  intros _. exists (o :: owner), (r :: repo).
  repeat split; auto; discriminate.
Qed.

(** X13. The accepted paths are exactly the texts [owner/repo] in which the
    owner and the repository are not empty and hold no character of the
    pattern (so no further slash) and no white space. *)
Theorem is_valid_repo_path_shape (repo_path : str) :
  is_valid_repo_path re_space repo_path = true
  <-> exists owner repo,
        repo_path = owner ++ slash :: repo
        /\ owner <> [] /\ repo <> []
        /\ has_invalid_char re_space owner = false
        /\ has_invalid_char re_space repo = false.
Proof.
  split; [apply valid_repo_path_parts|]. unfold is_valid_repo_path.
  intros (owner & repo & -> & Ho & Hr & Hio & Hir).
  assert (E : split_on slash (owner ++ slash :: repo) = [owner; repo]).
  { apply split_on_pair. repeat split; now apply slash_invalid. }
  rewrite E.
  assert (Hin : char_in slash (owner ++ slash :: repo) = true).
  { unfold char_in. rewrite existsb_app. cbn [existsb].
    unfold char_eqb. rewrite N.eqb_refl. now rewrite orb_true_r. }
  rewrite Hin.
  destruct owner; [contradiction|]. destruct repo; [contradiction|].
  cbn [app str_truthy negb orb]. now rewrite Hio, Hir.
Qed.

End RepoPath.

(** ** Replacement *)

Lemma startswith_app (p rest : str) : startswith p (p ++ rest) = true.
Proof.
  induction p as [|c p IH]; [reflexivity|].
  cbn [app startswith]. unfold char_eqb. now rewrite N.eqb_refl.
Qed.

Lemma startswith_split (p s : str) :
  startswith p s = true -> s = p ++ skipn (List.length p) s.
Proof.
  revert s. induction p as [|c p IH]; intros s; [reflexivity|].
  destruct s as [|x s]; cbn [startswith]; [discriminate|].
  intros H. apply andb_true_iff in H as [Hc Hs].
  apply N.eqb_eq in Hc. subst x. cbn [List.length skipn app].
  f_equal. now apply IH.
Qed.

Lemma replace_from_skip (old new p s : str) :
  replace_from (List.length p) old new (p ++ s) = replace_from 0 old new s.
Proof. induction p as [|c p IH]; [reflexivity | exact IH]. Qed.

Lemma replace_from_match (o : char) (old new rest : str) :
  replace_from 0 (o :: old) new ((o :: old) ++ rest)
  = new ++ replace_from 0 (o :: old) new rest.
Proof.
  cbn [app replace_from].
  change (o :: old ++ rest) with ((o :: old) ++ rest).
  rewrite startswith_app.
  replace (List.length (o :: old) - 1) with (List.length old)
    by (cbn [List.length]; lia).
  now rewrite replace_from_skip.
Qed.

Lemma str_replace_prefix (old new rest : str) :
  old <> [] ->
  str_replace old new (old ++ rest) = new ++ str_replace old new rest.
Proof.
  destruct old as [|o old]; [contradiction|]. intros _.
  unfold str_replace. apply replace_from_match.
Qed.

Lemma str_replace_absent (old new s : str) :
  old <> [] -> contains old s = false -> str_replace old new s = s.
Proof.
  destruct old as [|o old]; [contradiction|]. intros _.
  unfold str_replace. induction s as [|c s IH]; [reflexivity|].
  cbn [contains]. intros H. apply orb_false_iff in H as [Hhere Hlater].
  cbn [replace_from]. rewrite Hhere. f_equal. now apply IH.
Qed.

Lemma is_ascii_app (a b : str) : is_ascii (a ++ b) = is_ascii a && is_ascii b.
Proof. apply forallb_app. Qed.

(** Removing an ASCII text leaves the other characters. *)
Lemma str_remove_ascii (old s : str) :
  old <> [] -> is_ascii old = true ->
  is_ascii (str_replace old [] s) = is_ascii s.
Proof.
  destruct old as [|o old]; [contradiction|]. intros _ Hold.
  unfold str_replace.
  assert (H : forall n s, List.length s <= n ->
            is_ascii (replace_from 0 (o :: old) [] s) = is_ascii s).
  { clear s. induction n as [|n IH]; intros s Hn.
    - destruct s; [reflexivity | cbn in Hn; lia].
    - destruct s as [|c s]; [reflexivity|].
      destruct (startswith (o :: old) (c :: s)) eqn:E.
      + apply startswith_split in E. rewrite E at 1.
        rewrite replace_from_match. cbn [app]. rewrite IH.
        * rewrite E at 2. rewrite is_ascii_app, Hold. reflexivity.
        * rewrite length_skipn. cbn [List.length] in *. lia.
      + cbn [replace_from]. rewrite E.
        unfold is_ascii in *. cbn [forallb].
        f_equal. apply IH. cbn [List.length] in Hn. lia. }
  apply (H (List.length s)). lia.
Qed.

(** ** The digest *)

Lemma round_length (s : Sha256.state) (kw : Z * Z) :
  List.length (Sha256.round s kw) = List.length s.
Proof.
  unfold Sha256.round.
  do 9 (destruct s as [|? s]; try reflexivity).
Qed.

Lemma rounds_length (kws : list (Z * Z)) (s : Sha256.state) :
  List.length (fold_left Sha256.round kws s) = List.length s.
Proof.
  revert s. induction kws as [|kw kws IH]; intros s; [reflexivity|].
  cbn [fold_left]. now rewrite IH, round_length.
Qed.

Lemma compress_length (s : Sha256.state) (block : list Z) :
  List.length (Sha256.compress s block) = List.length s.
Proof.
  unfold Sha256.compress.
  rewrite length_map, length_combine, rounds_length. apply Nat.min_id.
Qed.

Lemma digest_length (msg : bytes) : List.length (Sha256.digest msg) = 32.
Proof.
  unfold Sha256.digest, Sha256.digest_Z. rewrite length_map.
  set (blocks := Sha256.blocks _ _).
  assert (H : forall bs s, List.length s = 8 ->
            List.length (flat_map (Sha256.be_bytes 4)
                           (fold_left Sha256.compress bs s)) = 32).
  { induction bs as [|b bs IH]; intros s Hs.
    - cbn [fold_left].
      do 9 (destruct s as [|? s]; try discriminate). reflexivity.
    - cbn [fold_left]. apply IH. now rewrite compress_length. }
  now apply H.
Qed.

Lemma hexdigest_nonempty (msg : bytes) :
  hexdigest (Sha256.digest msg) <> [].
Proof.
  pose proof (digest_length msg) as H.
  destruct (Sha256.digest msg) as [|b d]; [discriminate|].
  unfold hexdigest. cbn [flat_map hex_of_byte app]. discriminate.
Qed.

Lemma hmac_hexdigest_nonempty (key payload : bytes) :
  hexdigest (hmac_sha256 key payload) <> [].
Proof. unfold hmac_sha256. cbv zeta. apply hexdigest_nonempty. Qed.

(** ** Which headers are accepted *)

(** X14. With a secret, a header is accepted exactly when what is left of it
    once every ["sha256="] is removed is the hexadecimal HMAC-SHA256 of the
    body under the secret; no other header passes. *)
Theorem verify_accepts_iff (config : Config) (key payload : bytes)
    (signature : str) :
  webhook_secret config <> [] ->
  str_encode (webhook_secret config) = Ok key ->
  outcome (_verify_signature config payload signature) = Ok true
  <-> str_replace (u "sha256=") [] signature
      = hexdigest (hmac_sha256 key payload).
Proof.
  intros Hsecret Hkey. destruct signature as [|c s].
  - unfold _verify_signature. apply str_truthy_true in Hsecret.
    rewrite Hsecret. cbn. split; [discriminate|].
    intros H. symmetry in H. now apply hmac_hexdigest_nonempty in H.
  - rewrite (@verify_compares config key) by (auto; discriminate).
    unfold outcome, compare_digest. cbn [snd].
    rewrite hexdigest_ascii. cbn [andb]. split.
    + destruct (is_ascii _); [|discriminate].
      intros H. injection H as H. apply str_eqb_eq in H. now symmetry.
    + intros ->. now rewrite hexdigest_ascii, str_eqb_refl.
Qed.

(** The header GitHub sends for ["hello"] under the key ["k"]. *)
Lemma verify_accepts_iff_witness :
  outcome (_verify_signature secret_k (ascii_bytes "hello")
             (github_signature (ascii_bytes "k") (ascii_bytes "hello")))
  = Ok true
  <-> str_replace (u "sha256=") []
        (github_signature (ascii_bytes "k") (ascii_bytes "hello"))
      = hexdigest (hmac_sha256 (ascii_bytes "k") (ascii_bytes "hello")).
Proof.
  apply (@verify_accepts_iff secret_k (ascii_bytes "k")).
  - vm_compute. discriminate.
  - reflexivity.
Defined.

(** ** The answers of the endpoint *)

Lemma decode_points_raises (bs : list N) (e : exn) :
  decode_points bs = Raise e -> e = UnicodeDecodeError.
Proof.
  assert (Haccept : forall lo cp rest,
            (rest = Raise e -> e = UnicodeDecodeError) ->
            accept lo cp rest = Raise e -> e = UnicodeDecodeError).
  { intros lo cp rest Hrest. unfold accept.
    destruct (_ && _); [|congruence].
    destruct rest; cbn [rbind]; [discriminate | auto]. }
  assert (H : forall n bs, List.length bs <= n ->
            decode_points bs = Raise e -> e = UnicodeDecodeError).
  { clear bs. induction n as [|n IH]; intros bs Hn.
    - destruct bs; [discriminate | cbn in Hn; lia].
    - destruct bs as [|b t]; [discriminate|]. cbn [List.length] in Hn.
      cbn [decode_points].
      repeat match goal with
             | |- (if ?c then _ else _) = _ -> _ => destruct c
             | |- match ?l with [] => _ | _ :: _ => _ end = _ -> _ =>
               destruct l; cbn [List.length] in Hn
             end;
        try congruence;
        apply Haccept; apply IH; lia. }
  apply (H (List.length bs)). lia.
Qed.

Section Answers.

Variable json_loads : str -> result json.
Variable str_container : json -> str.
Variable config : Config.
Variable request : Request.

Local Abbreviation payload := (get_data request).
Local Abbreviation signature := (header_or_empty (x_hub_signature_256 request)).
Local Abbreviation handled :=
  (handle_webhook json_loads str_container config request).

Lemma handle_verify_raises (t : list event) (e : exn) :
  _verify_signature config payload signature = (t, Raise e) ->
  handled
  = (t ++ [Log Error (u "Error processing webhook") (Some e)],
     Ok (jsonify "error" "Internal server error" 500)).
Proof. intros H. unfold handle_webhook. rewrite H. reflexivity. Qed.

Lemma handle_bad_json (t : list event) (text : str) :
  _verify_signature config payload signature = (t, Ok true) ->
  bytes_decode payload = Ok text ->
  json_loads text = Raise JSONDecodeError ->
  handled
  = (t ++ [Loads payload; Log Error (u "Invalid JSON payload") None],
     Ok (jsonify "error" "Invalid JSON" 400)).
Proof.
  intros Hv Hd Hj. unfold handle_webhook.
  rewrite Hv. cbn. rewrite Hd. cbn. rewrite Hj. reflexivity.
Qed.

Lemma handle_decode_raises (t : list event) (e : exn) :
  _verify_signature config payload signature = (t, Ok true) ->
  bytes_decode payload = Raise e ->
  handled
  = (t ++ [Loads payload;
           Log Error (u "Error processing webhook")
               (Some UnicodeDecodeError)],
     Ok (jsonify "error" "Internal server error" 500)).
Proof.
  intros Hv Hd. pose proof (decode_points_raises _ Hd) as ->.
  unfold handle_webhook.
  rewrite Hv. cbn. rewrite Hd. cbn. now rewrite <- app_assoc.
Qed.

Lemma handle_loads_raises (t : list event) (text : str) (e : exn) :
  _verify_signature config payload signature = (t, Ok true) ->
  bytes_decode payload = Ok text ->
  json_loads text = Raise e ->
  e <> JSONDecodeError ->
  handled
  = (t ++ [Loads payload; Log Error (u "Error processing webhook") (Some e)],
     Ok (jsonify "error" "Internal server error" 500)).
Proof.
  intros Hv Hd Hj He. unfold handle_webhook.
  rewrite Hv. cbn. rewrite Hd. cbn. rewrite Hj.
  destruct e; try contradiction; cbn; now rewrite <- app_assoc.
Qed.

(** X15. A verified request whose body is text but not JSON is answered 400
    with an error body; the event is neither classified nor notified. *)
Theorem invalid_json_answered_400 (text : str) :
  outcome (_verify_signature config payload signature) = Ok true ->
  bytes_decode payload = Ok text ->
  json_loads text = Raise JSONDecodeError ->
  handled
  = (trace (_verify_signature config payload signature)
     ++ [Loads payload; Log Error (u "Invalid JSON payload") None],
     Ok {| body := JDict [(u "error", JStr (u "Invalid JSON"))];
           status := 400 |})
  /\ (forall m, ~ In (Notify m) (trace handled)).
Proof.
  intros Hv Hd Hj.
  rewrite (handle_bad_json (@outcome_split _ _ _ Hv) Hd Hj).
  split; [reflexivity|]. intros m. cbn [trace fst].
  rewrite in_app_iff. cbn [In].
  pose proof (@logs_not_other _ (Notify m)
                (verify_logs config payload signature) eq_refl).
  intuition discriminate.
Qed.

(** X16. A verified request whose body is not UTF-8 is answered 500, not
    400: the decoding error is not the one the handler of invalid JSON
    catches. *)
Theorem undecodable_body_answered_500 (e : exn) :
  outcome (_verify_signature config payload signature) = Ok true ->
  bytes_decode payload = Raise e ->
  outcome handled
  = Ok {| body := JDict [(u "error", JStr (u "Internal server error"))];
          status := 500 |}.
Proof.
  intros Hv Hd. now rewrite (handle_decode_raises (@outcome_split _ _ _ Hv) Hd).
Qed.

(** X17. With a secret, a signature header that holds a character outside
    ASCII is answered 500, not 403: the comparison of the digests raises. *)
Theorem non_ascii_signature_answered_500 (key : bytes) :
  webhook_secret config <> [] ->
  str_encode (webhook_secret config) = Ok key ->
  is_ascii signature = false ->
  outcome (_verify_signature config payload signature) = Raise TypeError
  /\ handled
     = ([Log Error (u "Error processing webhook") (Some TypeError)],
        Ok {| body := JDict [(u "error", JStr (u "Internal server error"))];
              status := 500 |}).
Proof.
  intros Hsecret Hkey Hascii.
  assert (Hsig : signature <> []).
  { intros E. rewrite E in Hascii. discriminate. }
  assert (Hv : _verify_signature config payload signature
               = ([], Raise TypeError)).
  { rewrite (@verify_compares config key) by assumption.
    unfold compare_digest.
    rewrite str_remove_ascii, Hascii, andb_false_r;
      [reflexivity | rewrite sha256_prefix_points; discriminate
      | reflexivity]. }
  split; [now rewrite Hv|].
  now rewrite (handle_verify_raises Hv).
Qed.

(** A hand-off is found only in the trace of a request that is answered
    200, for a message that is not empty and an admin id that is set. *)
Lemma notify_implies (m : str) :
  In (Notify m) (trace handled) ->
  outcome handled = Ok (jsonify "status" "success" 200)
  /\ m <> [] /\ bot_admin_id config <> [].
Proof.
  pose proof (verify_logs config payload signature) as Hlogs.
  assert (Hno : forall t more,
            forallb is_log t = true ->
            (forall e, In e more -> e <> Notify m) ->
            ~ In (Notify m) (t ++ more)).
  { intros t more Ht Hmore Hin. apply in_app_iff in Hin as [Hin|Hin].
    - now apply (@logs_not_other t (Notify m)).
    - now apply (Hmore (Notify m)). }
  assert (Hside : forall a b : event,
            a <> Notify m -> b <> Notify m ->
            forall e, In e [a; b] -> e <> Notify m).
  { intros a b Ha Hb e [<-|[<-|[]]]; assumption. }
  assert (Hside1 : forall a : event,
            a <> Notify m -> forall e, In e [a] -> e <> Notify m).
  { intros a Ha e [<-|[]]; assumption. }
  destruct (_verify_signature config payload signature) as [t [[|]|e]] eqn:Hv;
    cbn [trace fst] in Hlogs.
  - destruct (bytes_decode payload) as [text|e] eqn:Hd.
    + destruct (json_loads text) as [data|e] eqn:Hj.
      * pose proof (process_event_logs str_container
                      (header_or_empty (x_github_event request)) data) as Hp.
        pose proof (process_event_outcome str_container
                      (header_or_empty (x_github_event request)) data) as Ho.
        rewrite (handle_accepted _ _ _ _ Hv Hd Hj (@outcome_split _ _ _ Ho)).
        cbn [trace outcome fst snd]. intros Hin. split; [reflexivity|].
        apply in_app_iff in Hin as [Hin|Hin];
          [now apply (@logs_not_other t (Notify m)) in Hin|].
        cbn [In] in Hin. destruct Hin as [Hin|Hin]; [discriminate|].
        apply in_app_iff in Hin as [Hin|Hin];
          [now apply (@logs_not_other _ (Notify m) Hp) in Hin|].
        apply notify_in_handoff in Hin as (-> & Hm & Hadmin). now split.
      * assert (Hcase : e = JSONDecodeError \/ e <> JSONDecodeError)
          by (destruct e; (now left) || (right; discriminate)).
        destruct Hcase as [->|Hne].
        -- rewrite (handle_bad_json Hv Hd Hj). cbn [trace fst].
           intros Hin.
           apply Hno in Hin; [destruct Hin | exact Hlogs|];
             (apply Hside || apply Hside1); discriminate.
        -- rewrite (handle_loads_raises Hv Hd Hj Hne). cbn [trace fst].
           intros Hin.
           apply Hno in Hin; [destruct Hin | exact Hlogs|];
             (apply Hside || apply Hside1); discriminate.
    + rewrite (handle_decode_raises Hv Hd). cbn [trace fst].
      intros Hin.
           apply Hno in Hin; [destruct Hin | exact Hlogs|];
             (apply Hside || apply Hside1); discriminate.
  - rewrite (handle_refused _ _ _ _ Hv). cbn [trace fst].
    intros Hin.
           apply Hno in Hin; [destruct Hin | exact Hlogs|];
             (apply Hside || apply Hside1); discriminate.
  - rewrite (handle_verify_raises Hv). cbn [trace fst].
    intros Hin.
           apply Hno in Hin; [destruct Hin | exact Hlogs|];
             (apply Hside || apply Hside1); discriminate.
Qed.

(** X18. The endpoint answers every request: it never raises, its status is
    200, 400, 403 or 500, and [_send_notification] is entered at most for a
    request answered 200. *)
Theorem handle_webhook_answers :
  exists response,
    outcome handled = Ok response
    /\ In (status response) [200; 400; 403; 500]%Z
    /\ (forall m, In (Notify m) (trace handled) -> status response = 200%Z).
Proof.
  assert (H : exists response,
            outcome handled = Ok response
            /\ In (status response) [200; 400; 403; 500]%Z).
  { destruct (_verify_signature config payload signature) as [t [[|]|e]]
      eqn:Hv.
    - destruct (bytes_decode payload) as [text|e] eqn:Hd.
      + destruct (json_loads text) as [data|e] eqn:Hj.
        * pose proof (process_event_outcome str_container
                        (header_or_empty (x_github_event request)) data)
            as Ho.
          rewrite (handle_accepted _ _ _ _ Hv Hd Hj
                     (@outcome_split _ _ _ Ho)).
          eexists. split; [reflexivity | cbn; tauto].
        * assert (Hcase : e = JSONDecodeError \/ e <> JSONDecodeError)
            by (destruct e; (now left) || (right; discriminate)).
          destruct Hcase as [->|Hne].
          -- rewrite (handle_bad_json Hv Hd Hj).
             eexists. split; [reflexivity | cbn; tauto].
          -- rewrite (handle_loads_raises Hv Hd Hj Hne).
             eexists. split; [reflexivity | cbn; tauto].
      + rewrite (handle_decode_raises Hv Hd).
        eexists. split; [reflexivity | cbn; tauto].
    - rewrite (handle_refused _ _ _ _ Hv).
      eexists. split; [reflexivity | cbn; tauto].
    - rewrite (handle_verify_raises Hv).
      eexists. split; [reflexivity | cbn; tauto]. }
  destruct H as (response & Hr & Hs). exists response.
  split; [exact Hr|]. split; [exact Hs|].
  intros m Hin. apply notify_implies in Hin as (Hok & _).
  rewrite Hok in Hr. injection Hr as <-. reflexivity.
Qed.

End Answers.

(** A signed request whose body is the text [x]. *)
Lemma invalid_json_answered_400_witness :
  let request := signed_request "push" "x" in
  handle_webhook loads_example no_container secret_k request
  = (trace (_verify_signature secret_k (get_data request)
              (header_or_empty (x_hub_signature_256 request)))
     ++ [Loads (get_data request);
         Log Error (u "Invalid JSON payload") None],
     Ok {| body := JDict [(u "error", JStr (u "Invalid JSON"))];
           status := 400 |})
  /\ (forall m,
        ~ In (Notify m)
             (trace (handle_webhook loads_example no_container secret_k
                                    request))).
Proof.
  apply (@invalid_json_answered_400 loads_example no_container secret_k
           (signed_request "push" "x") (u "x"));
    vm_compute; reflexivity.
Defined.

(** A signed request whose body is the single byte 0xff. *)
Lemma undecodable_body_answered_500_witness :
  outcome (handle_webhook loads_example no_container secret_k
                          (signed_body "push" [xff]))
  = Ok {| body := JDict [(u "error", JStr (u "Internal server error"))];
          status := 500 |}.
Proof.
  apply (@undecodable_body_answered_500 loads_example no_container secret_k
           (signed_body "push" [xff]) UnicodeDecodeError);
    vm_compute; reflexivity.
Defined.

Lemma non_ascii_signature_answered_500_witness :
  outcome (_verify_signature secret_k
             (get_data accented_signature_request) [233%N])
  = Raise TypeError
  /\ handle_webhook loads_example no_container secret_k
                    accented_signature_request
     = ([Log Error (u "Error processing webhook") (Some TypeError)],
        Ok {| body := JDict [(u "error", JStr (u "Internal server error"))];
              status := 500 |}).
Proof.
  apply (@non_ascii_signature_answered_500 loads_example no_container
           secret_k accented_signature_request (ascii_bytes "k")).
  - vm_compute. discriminate.
  - reflexivity.
  - reflexivity.
Defined.

(** ** Which events are notified *)

Section Events.

Variable str_container : json -> str.

(** X19. An event type other than the six that are handled gives the empty
    message and one information entry in the log, whatever the payload; an
    absent event header is such a type. *)
Theorem unhandled_event_type (event_type : str) (data : json) :
  ~ In event_type event_types ->
  _process_event str_container event_type data
  = ([Log Info (u "Unhandled event type: " ++ event_type) None], Ok []).
Proof.
  intros H. rewrite process_event_dispatch. unfold dispatch.
  repeat match goal with
         | |- context [str_eqb event_type ?l] =>
           destruct (str_eqb event_type l) eqn:E;
             [apply str_eqb_eq in E; exfalso; apply H; subst;
              unfold event_types; cbn [In]; tauto
             |clear E]
         end.
  reflexivity.
Qed.

Ltac nonempty_by_length E :=
  apply (f_equal (@List.length char)) in E;
  rewrite ?length_app in E;
  change (List.length (u ")")) with 1 in E;
  cbn [List.length] in E; lia.

Lemma non_object_silent (event_type : str) (data : json) :
  is_dict data = false ->
  message_of (event_body str_container event_type data) = [].
Proof.
  intros H. by_event_type; try reflexivity;
    destruct data; try discriminate; reflexivity.
Qed.

Lemma silent_unless_notifiable (event_type : str)
    (fields : list (str * json)) :
  notifiable event_type fields = false ->
  message_of (event_body str_container event_type (JDict fields)) = [].
Proof.
  unfold notifiable, event_body.
  repeat match goal with
         | |- context [if str_eqb event_type ?l then _ else _] =>
           destruct (str_eqb event_type l)
         end;
    intros H; try reflexivity; try discriminate;
    try apply negb_false_iff in H;
    unfold push_body, pull_request_body, issues_body, star_body,
      release_body;
    rewrite !dict_get_dict; cbn [rbind];
    repeat first
      [ rewrite H; cbn [negb message_of]; reflexivity
      | match goal with
        | |- context [rbind ?r _] =>
          destruct r; cbn [rbind message_of]; try reflexivity
        end ].
Qed.

Lemma loud_when_notifiable (event_type : str) (fields : list (str * json))
    (message : str) :
  notifiable event_type fields = true ->
  event_body str_container event_type (JDict fields) = Ok message ->
  message <> [].
Proof.
  unfold notifiable, event_body.
  repeat match goal with
         | |- context [if str_eqb event_type ?l then _ else _] =>
           destruct (str_eqb event_type l)
         end;
    intros Hn Hbody; try discriminate;
    try apply negb_true_iff in Hn;
    unfold push_body, pull_request_body, issues_body, star_body, fork_body,
      release_body in Hbody;
    rewrite !dict_get_dict in Hbody; cbn [rbind] in Hbody;
    repeat first
      [ rewrite Hn in Hbody; cbn [negb] in Hbody
      | match type of Hbody with
        | context [rbind ?r _] =>
          destruct r; cbn [rbind] in Hbody; try discriminate
        end ];
    injection Hbody as <-;
    intros E; nonempty_by_length E.
Qed.

(** X20. A message is written only for an object payload that passes the
    filter of its event type, and the message of a payload that passes it
    is not empty once the extraction of its fields completes. *)
Theorem notified_events (event_type : str) (data : json) (message : str) :
  outcome (_process_event str_container event_type data) = Ok message ->
  (message <> [] ->
   exists fields, data = JDict fields
                  /\ notifiable event_type fields = true)
  /\ (forall fields message',
        data = JDict fields ->
        notifiable event_type fields = true ->
        event_body str_container event_type data = Ok message' ->
        message = message' /\ message <> []).
Proof.
  rewrite process_event_outcome. intros H. injection H as <-. split.
  - intros Hne.
    destruct data as [| | | | | |fields];
      try (exfalso; apply Hne; now apply non_object_silent).
    exists fields. split; [reflexivity|].
    destruct (notifiable event_type fields) eqn:E; [reflexivity|].
    exfalso. apply Hne. now apply silent_unless_notifiable.
  - intros fields message' -> Hn Hbody. rewrite Hbody. cbn [message_of].
    split; [reflexivity|]. now apply (loud_when_notifiable _ _ Hn).
Qed.

End Events.

(** The event type [ping], and a request without the event header. *)
Lemma unhandled_event_type_witness :
  _process_event no_container (u "ping") JNull
  = ([Log Info (u "Unhandled event type: ping") None], Ok [])
  /\ _process_event no_container [] JNull
     = ([Log Info (u "Unhandled event type: ") None], Ok []).
Proof.
  split.
  - apply (@unhandled_event_type no_container (u "ping") JNull).
    vm_compute. intuition discriminate.
  - rewrite (@unhandled_event_type no_container [] JNull).
    + now rewrite app_nil_r.
    + vm_compute. intuition discriminate.
Defined.

(** A star that is created. *)
Lemma notified_events_witness :
  let data := JDict [(u "action", JStr (u "created"))] in
  let message := message_of (event_body no_container (u "star") data) in
  (message <> [] ->
   exists fields, data = JDict fields
                  /\ notifiable (u "star") fields = true)
  /\ (forall fields message',
        data = JDict fields ->
        notifiable (u "star") fields = true ->
        event_body no_container (u "star") data = Ok message' ->
        message = message' /\ message <> []).
Proof.
  intros data message.
  apply (@notified_events no_container (u "star") data message).
  reflexivity.
Defined.

(** ** The push formatter: the branch and the commits it reads *)

(** X21. For a ref that starts with ["refs/heads/"], the branch is the rest
    of the ref with every further ["refs/heads/"] removed as well: the rest
    itself when it holds none. Another ref is the branch as it stands. *)
Theorem push_branch (ref rest : str) :
  branch_of (JStr (u "refs/heads/" ++ rest))
  = Ok (str_replace (u "refs/heads/") [] rest)
  /\ (contains (u "refs/heads/") rest = false ->
      branch_of (JStr (u "refs/heads/" ++ rest)) = Ok rest)
  /\ (startswith (u "refs/heads/") ref = false ->
      branch_of (JStr ref) = Ok ref).
Proof.
  assert (Hne : u "refs/heads/" <> []) by (vm_compute; discriminate).
  assert (H : branch_of (JStr (u "refs/heads/" ++ rest))
              = Ok (str_replace (u "refs/heads/") [] rest)).
  { unfold branch_of. rewrite startswith_app.
    now rewrite str_replace_prefix. }
  split; [exact H|]. split.
  - intros Hc. rewrite H. now rewrite str_replace_absent.
  - intros Hs. unfold branch_of. now rewrite Hs.
Qed.

(** The branch [main], and a branch whose name holds the prefix again. *)
Lemma push_branch_witness :
  branch_of (JStr (u "refs/heads/main")) = Ok (u "main")
  /\ branch_of (JStr (u "refs/heads/a/refs/heads/b")) = Ok (u "a/b")
  /\ branch_of (JStr (u "refs/tags/v1")) = Ok (u "refs/tags/v1").
Proof.
  destruct (@push_branch (u "refs/tags/v1") (u "main")) as (_ & Hmain & Htag).
  destruct (@push_branch [] (u "a/refs/heads/b")) as (Hagain & _).
  split; [apply Hmain; reflexivity|].
  split; [exact Hagain | apply Htag; reflexivity].
Defined.

Section Commits.

Variable str_container : json -> str.

(** X22. The message of a push depends on its commits only through their
    number and the first three: a commit after the third is never read,
    even one that is not an object. *)
Theorem push_reads_three_commits (fields : list (str * json))
    (commits commits' : list json) :
  firstn 3 commits = firstn 3 commits' ->
  List.length commits = List.length commits' ->
  _process_push_event str_container
    (JDict ((u "commits", JList commits) :: fields))
  = _process_push_event str_container
      (JDict ((u "commits", JList commits') :: fields)).
Proof.
  intros Hfirst Hlen. unfold _process_push_event. f_equal.
  unfold push_body. rewrite !dict_get_dict. cbn [rbind].
  rewrite !get_or_cons. eval_keys.
  assert (Htruthy : truthy (JList commits) = truthy (JList commits')).
  { destruct commits, commits'; try discriminate; reflexivity. }
  repeat match goal with
         | |- rbind ?r _ = rbind ?r _ =>
           destruct r; cbn [rbind]; [|reflexivity]
         end.
  rewrite Htruthy. destruct (negb _); [reflexivity|].
  cbn [py_len slice_to py_iter rbind]. rewrite Hfirst, Hlen. reflexivity.
Qed.

End Commits.

(** Four commits, the fourth an object or the number 0. *)
Lemma push_reads_three_commits_witness :
  let c := JDict [(u "id", JStr (u "0123456789abcdef"))] in
  _process_push_event no_container
    (JDict ((u "commits", JList [c; c; c; c]) :: []))
  = _process_push_event no_container
      (JDict ((u "commits", JList [c; c; c; JInt 0]) :: [])).
Proof.
  intros c.
  apply (@push_reads_three_commits no_container [] [c; c; c; c]
           [c; c; c; JInt 0]); reflexivity.
Defined.

(** ** config.py *)

Section Configuration.

Variable int : str -> Z + value_error.
Variable env : ConfigPy.environ.
Variable c : ConfigPy.Config.
Hypothesis built : ConfigPy.__init__ int env = inl c.

Lemma init_fields :
  ConfigPy.telegram_token c <> []
  /\ ConfigPy.github_token c <> []
  /\ ConfigPy.webhook_secret c
     = ConfigPy.getenv env (u "GITHUB_WEBHOOK_SECRET") []
  /\ ConfigPy.bot_admin_id c = ConfigPy.getenv env (u "BOT_ADMIN_ID") [].
Proof.
  unfold ConfigPy.__init__ in built.
  destruct (ConfigPy.getenv env (u "TELEGRAM_BOT_TOKEN") []) eqn:Ht;
    cbn [str_truthy negb] in built; [discriminate|].
  destruct (ConfigPy.getenv env (u "GITHUB_TOKEN") []) eqn:Hg;
    cbn [str_truthy negb] in built; [discriminate|].
  destruct (int _); [|discriminate].
  injection built as <-. cbn. repeat split; discriminate.
Qed.

(** X23. A configuration that [Config()] has built always passes
    [validate()]: both tokens are set and not empty. *)
Theorem validate_after_init :
  ConfigPy.validate c = inl true
  /\ ConfigPy.telegram_token c <> []
  /\ ConfigPy.github_token c <> [].
Proof.
  destruct init_fields as (Ht & Hg & _). split; [|now split].
  unfold ConfigPy.validate.
  apply str_truthy_true in Ht. apply str_truthy_true in Hg.
  now rewrite Ht, Hg.
Qed.

(** X24. When [GITHUB_WEBHOOK_SECRET] is not set (or is empty), the endpoint
    built on the configuration accepts every request, whatever its
    signature header. *)
Theorem unset_secret_accepts_all (payload : bytes) (signature : str) :
  ConfigPy.getenv env (u "GITHUB_WEBHOOK_SECRET") [] = [] ->
  outcome (_verify_signature (handler_config c) payload signature) = Ok true.
Proof.
  intros H. destruct init_fields as (_ & _ & Hs & _).
  rewrite verify_without_secret; [reflexivity|].
  cbn. now rewrite Hs.
Qed.

(** X25. When [BOT_ADMIN_ID] is not set (or is empty), no request is ever
    handed to [_send_notification]. *)
Theorem unset_admin_never_notifies (json_loads : str -> result json)
    (str_container : json -> str) (request : Request) (m : str) :
  ConfigPy.getenv env (u "BOT_ADMIN_ID") [] = [] ->
  ~ In (Notify m)
       (trace (handle_webhook json_loads str_container (handler_config c)
                              request)).
Proof.
  intros H Hin. destruct init_fields as (_ & _ & _ & Ha).
  apply notify_implies in Hin as (_ & _ & Hadmin).
  apply Hadmin. cbn. now rewrite Ha.
Qed.

End Configuration.

(** The environment with the two tokens only: the configuration is built,
    passes [validate()], verifies nothing and notifies nobody. *)
Lemma validate_after_init_witness :
  exists c,
    ConfigPy.__init__ int_5000 tokens_only = inl c
    /\ ConfigPy.validate c = inl true
    /\ ConfigPy.telegram_token c <> []
    /\ ConfigPy.github_token c <> [].
Proof.
  eexists. split; [reflexivity|].
  apply (@validate_after_init int_5000 tokens_only). reflexivity.
Defined.

Lemma unset_secret_accepts_all_witness :
  exists c,
    ConfigPy.__init__ int_5000 tokens_only = inl c
    /\ outcome (_verify_signature (handler_config c) (ascii_bytes "{}")
                  (u "sha256=00"))
       = Ok true.
Proof.
  eexists. split; [reflexivity|].
  apply (@unset_secret_accepts_all int_5000 tokens_only); reflexivity.
Defined.

Lemma unset_admin_never_notifies_witness :
  exists c,
    ConfigPy.__init__ int_5000 tokens_only = inl c
    /\ ~ In (Notify (message_of (event_body no_container (u "fork")
                                            (JDict []))))
            (trace (handle_webhook loads_example no_container
                      (handler_config c) (unsigned_request "fork" "{}"))).
Proof.
  eexists. split; [reflexivity|].
  apply (@unset_admin_never_notifies int_5000 tokens_only); reflexivity.
Defined.

(** ** utils.extract_repo_info *)

Lemma char_in_app (c : char) (a b : str) :
  char_in c (a ++ b) = char_in c a || char_in c b.
Proof. apply existsb_app. Qed.

Lemma char_in_cons (c x : char) (s : str) :
  char_in c (x :: s) = char_eqb c x || char_in c s.
Proof. reflexivity. Qed.

Lemma char_eqb_sym (a b : char) : char_eqb a b = char_eqb b a.
Proof. apply N.eqb_sym. Qed.

Lemma span_not_app (c : char) (a b : str) :
  char_in c a = false -> span_not c (a ++ c :: b) = (a, c :: b).
Proof.
  induction a as [|x a IH]; intros H; cbn [app span_not].
  - unfold char_eqb. now rewrite N.eqb_refl.
  - rewrite char_in_cons in H. apply orb_false_iff in H as [Hx Ha].
    rewrite char_eqb_sym, Hx, IH by assumption. reflexivity.
Qed.

Lemma span_not_all (c : char) (a : str) :
  char_in c a = false -> span_not c a = (a, []).
Proof.
  induction a as [|x a IH]; intros H; cbn [span_not]; [reflexivity|].
  rewrite char_in_cons in H. apply orb_false_iff in H as [Hx Ha].
  rewrite char_eqb_sym, Hx, IH by assumption. reflexivity.
Qed.

Lemma span_not_run (c : char) (s run rest : str) :
  span_not c s = (run, rest) ->
  s = run ++ rest /\ char_in c run = false.
Proof.
  revert run rest. induction s as [|x s IH]; intros run rest;
    cbn [span_not].
  - intros H. injection H as <- <-. now split.
  - destruct (char_eqb x c) eqn:E.
    + intros H. injection H as <- <-. now split.
    + destruct (span_not c s) as [run' rest'].
      intros H. injection H as <- <-.
      destruct (IH run' rest' eq_refl) as [-> Hrun]. split; [reflexivity|].
      rewrite char_in_cons, char_eqb_sym, E. exact Hrun.
Qed.

Lemma before_last_prefix (mark s p : str) :
  before_last mark s = Some p -> p <> [] /\ exists q, s = p ++ q.
Proof.
  revert p. induction s as [|c s IH]; intros p; cbn [before_last];
    [discriminate|].
  destruct (before_last mark s) as [p'|].
  - intros H. injection H as <-. destruct (IH p' eq_refl) as [_ [q ->]].
    split; [discriminate|]. now exists q.
  - destruct (startswith mark s); [|discriminate].
    intros H. injection H as <-. split; [discriminate|]. now exists s.
Qed.

Lemma char_in_firstn (c : char) (n : nat) (s : str) :
  char_in c s = false -> char_in c (firstn n s) = false.
Proof.
  intros H. rewrite <- (firstn_skipn n s), char_in_app in H.
  now apply orb_false_iff in H.
Qed.

Section RepoInfo.

Variable re_space : char -> bool.

Lemma drop_git_sub (c : char) (repo : str) :
  char_in c repo = false -> char_in c (drop_git repo) = false.
Proof.
  intros H. unfold drop_git, slice_stop.
  destruct (endswith _ _); [|exact H].
  destruct (_ <? _)%Z; now apply char_in_firstn.
Qed.

Lemma match_owner_repo_groups (s owner repo : str) :
  match_owner_repo s = Some (owner, repo) ->
  owner <> [] /\ repo <> []
  /\ char_in slash owner = false /\ char_in slash repo = false.
Proof.
  unfold match_owner_repo.
  destruct (span_not slash s) as [o rest] eqn:E1.
  apply span_not_run in E1 as [_ Ho].
  destruct o as [|x o]; [discriminate|].
  destruct rest as [|y rest']; [discriminate|].
  destruct (span_not slash rest') as [r tail] eqn:E2.
  apply span_not_run in E2 as [_ Hr].
  destruct r as [|z r]; [discriminate|].
  intros H. injection H as <- <-. repeat split; auto; discriminate.
Qed.

Lemma match_ssh_groups (s owner repo : str) :
  match_ssh s = Some (owner, repo) ->
  owner <> [] /\ repo <> []
  /\ char_in slash owner = false /\ char_in slash repo = false.
Proof.
  unfold match_ssh. destruct (startswith _ s); [|discriminate].
  destruct (span_not slash _) as [o rest] eqn:E1.
  apply span_not_run in E1 as [_ Ho].
  destruct o as [|x o]; [discriminate|].
  destruct rest as [|y rest']; [discriminate|].
  destruct (span_not slash rest') as [run tail] eqn:E2.
  apply span_not_run in E2 as [_ Hrun].
  destruct (before_last (u ".git") run) as [p|] eqn:E3; [|discriminate].
  apply before_last_prefix in E3 as [Hp [q ->]].
  rewrite char_in_app in Hrun. apply orb_false_iff in Hrun as [Hrun _].
  intros H. injection H as <- <-. repeat split; auto; discriminate.
Qed.

(** X26. Whatever the text, the owner and the repository that
    [extract_repo_info] returns hold no slash, and the owner is empty only
    when no pattern matched, in which case the repository is empty too. *)
Theorem extract_repo_info_parts (repo_url : str) :
  char_in slash (fst (extract_repo_info re_space repo_url)) = false
  /\ char_in slash (snd (extract_repo_info re_space repo_url)) = false
  /\ (fst (extract_repo_info re_space repo_url) = [] ->
      extract_repo_info re_space repo_url = ([], [])).
Proof.
  unfold extract_repo_info. cbv zeta.
  set (s := strip_space re_space repo_url).
  unfold match_https.
  destruct (if startswith _ s then _ else None) as [[o r]|] eqn:E1.
  - destruct (startswith _ s); [|discriminate].
    apply match_owner_repo_groups in E1 as (Ho & _ & Hso & Hsr).
    cbn [fst snd]. repeat split; auto using drop_git_sub.
    intros ->. contradiction.
  - destruct (match_ssh s) as [[o r]|] eqn:E2.
    + apply match_ssh_groups in E2 as (Ho & _ & Hso & Hsr).
      cbn [fst snd]. repeat split; auto using drop_git_sub.
      intros ->. contradiction.
    + destruct (match_owner_repo s) as [[o r]|] eqn:E3.
      * apply match_owner_repo_groups in E3 as (Ho & _ & Hso & Hsr).
        cbn [fst snd]. repeat split; auto using drop_git_sub.
        intros ->. contradiction.
      * cbn. repeat split.
Qed.

Lemma match_owner_repo_found (owner repo tail : str) :
  owner <> [] -> repo <> [] ->
  char_in slash owner = false -> char_in slash repo = false ->
  tail = [] \/ (exists t, tail = slash :: t) ->
  match_owner_repo (owner ++ slash :: repo ++ tail) = Some (owner, repo).
Proof.
  intros Ho Hr Hso Hsr Htail. unfold match_owner_repo.
  rewrite span_not_app by assumption.
  destruct owner as [|x owner]; [contradiction|].
  assert (E : span_not slash (repo ++ tail) = (repo, tail)).
  { destruct Htail as [->|[t ->]].
    - rewrite app_nil_r. now apply span_not_all.
    - now apply span_not_app. }
  rewrite E. destruct repo; [contradiction | reflexivity].
Qed.

Lemma lstrip_space_kept (c : char) (s : str) :
  re_space c = false -> lstrip_space re_space (c :: s) = c :: s.
Proof. intros H. cbn [lstrip_space]. now rewrite H. Qed.

(** A text whose first and last characters are not white space is left as
    it is by [strip()]. *)
Lemma strip_space_kept (s : str) :
  (forall c rest, s = c :: rest -> re_space c = false) ->
  (forall c rest, s = rest ++ [c] -> re_space c = false) ->
  strip_space re_space s = s.
Proof.
  intros Hhead Hlast. unfold strip_space.
  destruct s as [|c s]; [reflexivity|].
  rewrite lstrip_space_kept by (eapply Hhead; reflexivity).
  destruct (@exists_last _ (c :: s)) as (rest & z & E); [discriminate|].
  rewrite E, rev_app_distr. cbn [rev app].
  rewrite lstrip_space_kept by (eapply Hlast; exact E).
  change (z :: rev rest) with ([z] ++ rev rest).
  now rewrite rev_app_distr, rev_involutive.
Qed.

Lemma startswith_before (c : char) (q a b : str) :
  char_in c q = false ->
  startswith q (a ++ c :: b) = true ->
  startswith q a = true.
Proof.
  revert a. induction q as [|x q IH]; intros a Hq; [reflexivity|].
  rewrite char_in_cons in Hq. apply orb_false_iff in Hq as [Hx Hq].
  destruct a as [|y a]; cbn [app startswith].
  - rewrite char_eqb_sym, Hx. discriminate.
  - intros H. apply andb_true_iff in H as [-> H]. now apply IH.
Qed.

Lemma has_invalid_char_app (a b : str) :
  has_invalid_char re_space (a ++ b)
  = has_invalid_char re_space a || has_invalid_char re_space b.
Proof. apply existsb_app. Qed.

Lemma valid_ends (owner repo : str) :
  owner <> [] -> repo <> [] ->
  has_invalid_char re_space owner = false ->
  has_invalid_char re_space repo = false ->
  strip_space re_space (owner ++ slash :: repo) = owner ++ slash :: repo.
Proof.
  intros Ho Hr Hio Hir. apply strip_space_kept.
  - intros c rest E. destruct owner as [|x owner]; [contradiction|].
    cbn [app] in E. injection E as <- _.
    unfold has_invalid_char in Hio. cbn [existsb] in Hio.
    apply orb_false_iff in Hio as [Hx _].
    now apply orb_false_iff in Hx.
  - intros c rest E.
    destruct (@exists_last _ repo Hr) as (r' & z & ->).
    change (owner ++ slash :: r' ++ [z])
      with (owner ++ (slash :: r') ++ [z]) in E.
    rewrite app_assoc in E. apply app_inj_tail in E as [_ <-].
    rewrite has_invalid_char_app in Hir.
    apply orb_false_iff in Hir as [_ Hz].
    unfold has_invalid_char in Hz. cbn [existsb] in Hz.
    rewrite orb_false_r in Hz. now apply orb_false_iff in Hz.
Qed.

(** A path [owner/repo] that [is_valid_repo_path] accepts starts with
    neither of the two prefixes: the colon is an invalid character. *)
Lemma valid_no_prefix (q owner repo : str) :
  char_in slash q = false -> char_in 58%N q = true ->
  has_invalid_char re_space owner = false ->
  startswith q (owner ++ slash :: repo) = false.
Proof.
  intros Hq Hcolon Hio.
  destruct (startswith q (owner ++ slash :: repo)) eqn:E; [|reflexivity].
  apply startswith_before in E; [|assumption].
  apply startswith_split in E. rewrite E, has_invalid_char_app in Hio.
  apply orb_false_iff in Hio as [Hio _].
  unfold has_invalid_char in Hio. unfold char_in in Hcolon.
  apply existsb_exists in Hcolon as (x & Hx & Hc).
  apply N.eqb_eq in Hc. subst x.
  assert (Hbad : existsb
            (fun c => char_in c filename_invalid || re_space c) q = true).
  { apply existsb_exists. exists 58%N. split; [assumption | reflexivity]. }
  congruence.
Qed.

(** X27. On a path that [is_valid_repo_path] accepts, [extract_repo_info]
    returns its owner and its repository, the latter without a final
    [.git]. *)
Theorem extract_valid_repo_path (repo_path : str) :
  is_valid_repo_path re_space repo_path = true ->
  exists owner repo,
    repo_path = owner ++ slash :: repo
    /\ extract_repo_info re_space repo_path = (owner, drop_git repo).
Proof.
  intros H.
  apply valid_repo_path_parts in H as (owner & repo & -> & Ho & Hr & Hio & Hir).
  exists owner, repo. split; [reflexivity|].
  pose proof (slash_invalid _ _ Hio) as Hso.
  pose proof (slash_invalid _ _ Hir) as Hsr.
  unfold extract_repo_info. cbv zeta. rewrite valid_ends by assumption.
  unfold match_https, match_ssh.
  assert (Hhttps : startswith (u "https://github.com/")
                     (owner ++ slash :: repo) = false).
  { destruct (startswith _ _) eqn:E; [|reflexivity].
    apply startswith_split in E.
    change (u "https://github.com/")
      with (u "https:" ++ slash :: slash :: u "github.com/") in E.
    rewrite <- app_assoc in E. cbn [app] in E.
    assert (Hown : span_not slash (owner ++ slash :: repo)
                   = (owner, slash :: repo)) by now apply span_not_app.
    rewrite E in Hown at 1.
    rewrite (@span_not_app slash (u "https:")) in Hown by reflexivity.
    injection Hown as _ Hrepo. rewrite <- Hrepo in Hsr. discriminate. }
  rewrite Hhttps.
  rewrite (@valid_no_prefix (u "git@github.com:")) by (auto; reflexivity).
  assert (Hm : match_owner_repo (owner ++ slash :: repo)
               = Some (owner, repo)).
  { rewrite <- (app_nil_r repo) at 1.
    apply match_owner_repo_found; auto. }
  now rewrite Hm.
Qed.

(** X28. On [https://github.com/owner/repo], with or without a further path,
    [extract_repo_info] returns the owner and the repository, the latter
    without a final [.git]. *)
Theorem extract_https_url (owner repo tail : str) :
  owner <> [] -> repo <> [] ->
  char_in slash owner = false -> char_in slash repo = false ->
  tail = [] \/ (exists t, tail = slash :: t) ->
  let url := u "https://github.com/" ++ owner ++ slash :: repo ++ tail in
  strip_space re_space url = url ->
  extract_repo_info re_space url = (owner, drop_git repo).
Proof.
  intros Ho Hr Hso Hsr Htail url Hstrip.
  unfold extract_repo_info. cbv zeta. rewrite Hstrip.
  unfold match_https, url.
  rewrite startswith_app, skipn_app, Nat.sub_diag, skipn_all.
  cbn [skipn app]. now rewrite match_owner_repo_found.
Qed.

End RepoInfo.

(** The path [octocat/hello.git]. *)
Lemma extract_valid_repo_path_witness :
  exists owner repo,
    u "octocat/hello.git" = owner ++ slash :: repo
    /\ extract_repo_info unicode_space (u "octocat/hello.git")
       = (owner, drop_git repo).
Proof.
  apply (@extract_valid_repo_path unicode_space (u "octocat/hello.git")).
  reflexivity.
Defined.

(** The address of a directory of a repository. *)
Lemma extract_https_url_witness :
  extract_repo_info unicode_space
    (u "https://github.com/" ++ u "octocat" ++ slash :: u "hello.git"
       ++ u "/tree/main")
  = (u "octocat", u "hello").
Proof.
  apply (@extract_https_url unicode_space (u "octocat") (u "hello.git")
           (u "/tree/main"));
    try (vm_compute; congruence).
  right. now exists (u "tree/main").
Defined.
